(** * The lost-and-found backend: a shallow embedding and its properties

    The program ([lost-and-found-backend.py]) keeps one SQLite table,
    [items], and offers five request handlers over it: [get_items],
    [create_item], [claim_item], [delete_item] and [get_item].  Every
    handler opens a connection, runs one or two SQL statements, commits and
    closes, so a handler is modelled as a function from the contents of the
    database file to an outcome and the new contents.

    The table is a finite map from rowid to the other six columns
    ([id INTEGER PRIMARY KEY] is the rowid), together with the counter that
    SQLite keeps in [sqlite_sequence] for an [AUTOINCREMENT] table. *)

From Stdlib Require Import ZArith String Ascii Lia.
From stdpp Require Import gmap list sorting strings.

Local Open Scope Z_scope.

(** ** Values *)

(** [datetime.date]: a proleptic Gregorian calendar date.  Python only ever
    builds dates for which [date_valid] holds. *)
Record date := Date { year : Z; month : Z; day : Z }.

Definition is_leap (y : Z) : bool :=
  (y mod 4 =? 0) && (negb (y mod 100 =? 0) || (y mod 400 =? 0)).

Definition days_in_month (y m : Z) : Z :=
  if m =? 2 then (if is_leap y then 29 else 28)
  else if (m =? 4) || (m =? 6) || (m =? 9) || (m =? 11) then 30
  else 31.

Definition date_valid (d : date) : bool :=
  (1 <=? year d) && (year d <=? 9999) &&
  (1 <=? month d) && (month d <=? 12) &&
  (1 <=? day d) && (day d <=? days_in_month (year d) (month d)).

(** Chronological order, as [date.__lt__] and friends compute it. *)
Definition date_compare (d1 d2 : date) : comparison :=
  match year d1 ?= year d2 with
  | Eq => match month d1 ?= month d2 with
          | Eq => day d1 ?= day d2
          | c => c
          end
  | c => c
  end.

(** The character of the decimal digit [n]. *)
Definition digit (n : Z) : ascii := ascii_of_N (Z.to_N (48 + n)).

Definition digit_value (c : ascii) : option Z :=
  let n := Z.of_N (N_of_ascii c) in
  if (48 <=? n) && (n <=? 57) then Some (n - 48) else None.

(** [date.isoformat()]: ["%04d-%02d-%02d"].  This is the text the [sqlite3]
    module binds for a [date] parameter. *)
Definition isoformat (d : date) : string :=
  String (digit (year d / 1000)) (String (digit (year d / 100 mod 10))
  (String (digit (year d / 10 mod 10)) (String (digit (year d mod 10))
  (String "-" (String (digit (month d / 10)) (String (digit (month d mod 10))
  (String "-" (String (digit (day d / 10)) (String (digit (day d mod 10))
  EmptyString))))))))).

(** Reading a date back from its ISO text ([YYYY-MM-DD]), as the response
    model does for the [date_found] column. *)
Definition fromisoformat (s : string) : option date :=
  match s with
  | String y3 (String y2 (String y1 (String y0 (String s1 (String m1
      (String m0 (String s2 (String d1 (String d0 EmptyString))))))))) =>
      if Ascii.eqb s1 "-" && Ascii.eqb s2 "-" then
        a3 ← digit_value y3; a2 ← digit_value y2;
        a1 ← digit_value y1; a0 ← digit_value y0;
        b1 ← digit_value m1; b0 ← digit_value m0;
        c1 ← digit_value d1; c0 ← digit_value d0;
        let d := Date (1000 * a3 + 100 * a2 + 10 * a1 + a0)
                      (10 * b1 + b0) (10 * c1 + c0) in
        if date_valid d then Some d else None
      else None
  | _ => None
  end.

(** Python objects that occur as values of the dictionaries the handlers
    return.  A [str] is modelled by the string of its bytes. *)
Inductive value :=
| VNone
| VBool (b : bool)
| VInt (n : Z)
| VStr (s : string)
| VDate (d : date).

(** Values as SQLite stores them.  The program writes only text and
    integers; a nullable column may hold [NULL]. *)
Inductive SqlValue :=
| NULL
| INTEGER (n : Z)
| TEXT (s : string).

(** How the [sqlite3] module hands a stored value to Python. *)
Definition convert (v : SqlValue) : value :=
  match v with
  | NULL => VNone
  | INTEGER n => VInt n
  | TEXT s => VStr s
  end.

(** The order of [ORDER BY]: [NULL] first, then numbers, then text compared
    byte by byte (the [BINARY] collation). *)
Definition sql_compare (a b : SqlValue) : comparison :=
  match a, b with
  | NULL, NULL => Eq
  | NULL, _ => Lt
  | _, NULL => Gt
  | INTEGER x, INTEGER y => x ?= y
  | INTEGER _, TEXT _ => Lt
  | TEXT _, INTEGER _ => Gt
  | TEXT s, TEXT t => String.compare s t
  end.

Definition sql_leb (a b : SqlValue) : bool :=
  match sql_compare a b with Gt => false | _ => true end.

(** ** Outcomes *)

Inductive exception :=
| HTTPException (status_code : Z) (detail : string)
| RequestValidationError
| OverflowError
| OperationalError.

Inductive result (A : Type) :=
| Return (a : A)
| Raise (e : exception).
Arguments Return {A} a.
Arguments Raise {A} e.

(** ** The pydantic models *)

(** [class Item(BaseModel)]: five required fields and [claimed], which is
    optional, may be [None] and defaults to [False]. *)
Record Item := {
  name : string;
  description : string;
  location : string;
  date_found : date;
  contact_info : string;
  claimed : option bool
}.

(** [class ItemResponse(Item)]: the fields of [Item] and [id]. *)
Record ItemResponse := {
  id : Z;
  fields : Item
}.

(** [item.dict()] *)
Definition Item_dict (item : Item) : gmap string value :=
  <["claimed" := match claimed item with Some b => VBool b | None => VNone end]>
  (<["contact_info" := VStr (contact_info item)]>
  (<["date_found" := VDate (date_found item)]>
  (<["location" := VStr (location item)]>
  (<["description" := VStr (description item)]>
  (<["name" := VStr (name item)]> ∅))))).

(** The keys of a request body (or the keyword arguments of [Item(...)]),
    each already converted to the type of its field; [None] is an absent
    key.  For [claimed] the inner [None] is an explicit null. *)
Record ItemBody := {
  body_name : option string;
  body_description : option string;
  body_location : option string;
  body_date_found : option date;
  body_contact_info : option string;
  body_claimed : option (option bool)
}.

(** Building an [Item]: a field declared without a default is required. *)
Definition Item_validate (b : ItemBody) : result Item :=
  match body_name b, body_description b, body_location b,
        body_date_found b, body_contact_info b with
  | Some n, Some d, Some l, Some df, Some c =>
      Return {| name := n; description := d; location := l;
                date_found := df; contact_info := c;
                claimed := default (Some false) (body_claimed b) |}
  | _, _, _, _, _ => Raise RequestValidationError
  end.

(** [response_model=ItemResponse]: the dictionary a handler returns is read
    into the model.  Text is taken as it is, [date_found] may be a date or
    its ISO text, [claimed] may be a boolean, the integers 0 and 1, or
    [None]; a missing [claimed] takes the default. *)
Definition as_str (v : option value) : option string :=
  match v with Some (VStr s) => Some s | _ => None end.

Definition as_int (v : option value) : option Z :=
  match v with Some (VInt n) => Some n | _ => None end.

Definition as_date (v : option value) : option date :=
  match v with
  | Some (VDate d) => Some d
  | Some (VStr s) => fromisoformat s
  | _ => None
  end.

Definition as_optional_bool (v : option value) : option (option bool) :=
  match v with
  | None => Some (Some false)
  | Some VNone => Some None
  | Some (VBool b) => Some (Some b)
  | Some (VInt 0) => Some (Some false)
  | Some (VInt 1) => Some (Some true)
  | _ => None
  end.

Definition response_model (d : gmap string value) : option ItemResponse :=
  i ← as_int (d !! "id");
  n ← as_str (d !! "name");
  de ← as_str (d !! "description");
  l ← as_str (d !! "location");
  df ← as_date (d !! "date_found");
  c ← as_str (d !! "contact_info");
  cl ← as_optional_bool (d !! "claimed");
  Some {| id := i;
          fields := {| name := n; description := de; location := l;
                       date_found := df; contact_info := c;
                       claimed := cl |} |}.

(** ** The database *)

(** The columns of a row of [items] other than [id]. *)
Record Row := {
  col_name : SqlValue;
  col_description : SqlValue;
  col_location : SqlValue;
  col_date_found : SqlValue;
  col_contact_info : SqlValue;
  col_claimed : SqlValue
}.

Record Store := {
  items : gmap Z Row;
  sqlite_sequence : Z
}.

(** [init_db]: the table is created, empty, when the file does not exist;
    an existing file is left as it is. *)
Definition init_db (file : option Store) : Store :=
  match file with
  | None => {| items := ∅; sqlite_sequence := 0 |}
  | Some db => db
  end.

(** SQLite's [INTEGER] is a signed 64-bit integer. *)
Definition INT64_MIN : Z := - 2 ^ 63.
Definition INT64_MAX : Z := 2 ^ 63 - 1.

(** Binding a Python [int] to a [?]: the [sqlite3] module raises
    [OverflowError] when it does not fit. *)
Definition bind_int (n : Z) : result Z :=
  if (INT64_MIN <=? n) && (n <=? INT64_MAX) then Return n
  else Raise OverflowError.

(** The columns of [SELECT *], in the order of [CREATE TABLE]
    ([cursor.description]), and a result row. *)
Definition description_of_items : list string :=
  ["id"; "name"; "description"; "location"; "date_found"; "contact_info";
   "claimed"]%string.

Definition tuple (r : Z * Row) : list SqlValue :=
  [INTEGER r.1; col_name r.2; col_description r.2; col_location r.2;
   col_date_found r.2; col_contact_info r.2; col_claimed r.2].

(** [enumerate] *)
Fixpoint enumerate_from {A} (i : nat) (l : list A) : list (nat * A) :=
  match l with
  | [] => []
  | x :: l => (i, x) :: enumerate_from (S i) l
  end.

(** [dict_factory(cursor, row)]: the loop assigns [d[col[0]] = row[idx]] for
    each column.  A result row has one value per column, so [row[idx]] is
    always in range. *)
Definition dict_factory (cursor_description : list string)
    (row : list SqlValue) : gmap string value :=
  foldl (λ d ic, match row !! ic.1 with
                 | Some v => <[ic.2 := convert v]> d
                 | None => d
                 end)
        ∅ (enumerate_from 0 cursor_description).

(** [SELECT * FROM items ORDER BY date_found DESC] *)
Definition date_found_desc (r1 r2 : Z * Row) : Prop :=
  sql_leb (col_date_found r2.2) (col_date_found r1.2) = true.

#[global] Instance date_found_desc_dec r1 r2 : Decision (date_found_desc r1 r2) :=
  bool_eq_dec _ true.

Definition select_order_by_date_found_desc (db : Store) : list (list SqlValue) :=
  tuple <$> merge_sort date_found_desc (map_to_list (items db)).

(** [SELECT * FROM items WHERE id = ?] *)
Definition select_where_id (item_id : Z) (db : Store)
  : result (list (list SqlValue)) :=
  match bind_int item_id with
  | Raise e => Raise e
  | Return k =>
      Return (match items db !! k with
              | Some r => [tuple (k, r)]
              | None => []
              end)
  end.

(** The largest rowid in the table, if any. *)
Definition last_rowid (m : gmap Z Row) : option Z :=
  map_fold (λ k _ acc, match acc with
                       | None => Some k
                       | Some j => Some (Z.max k j)
                       end) None m.

(** The rowid an [AUTOINCREMENT] table gives to a new row: one more than
    the largest rowid the table has ever held, which is the larger of the
    largest present rowid and the counter in [sqlite_sequence].  When that
    is the largest 64-bit integer the insert fails (SQLITE_FULL, which the
    [sqlite3] module raises as [OperationalError]). *)
Definition new_rowid (db : Store) : option Z :=
  let v := match last_rowid (items db) with
           | None => Some 1
           | Some k => if INT64_MAX <=? k then None else Some (k + 1)
           end in
  match v with
  | None => None
  | Some v =>
      if INT64_MAX <=? sqlite_sequence db then None
      else Some (Z.max v (sqlite_sequence db + 1))
  end.

(** [INSERT INTO items (name, description, location, date_found,
    contact_info) VALUES (?, ?, ?, ?, ?)] with three strings, a date and a
    string as parameters.  The strings are stored as text, the date as its
    ISO text, and [claimed] takes its default, [FALSE], which is the
    integer 0.  The result is [lastrowid] and the new contents. *)
Definition insert_into_items (n d l : string) (df : date) (c : string)
    (db : Store) : result (Z * Store) :=
  match new_rowid db with
  | None => Raise OperationalError
  | Some k =>
      Return (k, {| items := <[k := {| col_name := TEXT n;
                                       col_description := TEXT d;
                                       col_location := TEXT l;
                                       col_date_found := TEXT (isoformat df);
                                       col_contact_info := TEXT c;
                                       col_claimed := INTEGER 0 |}]> (items db);
                    sqlite_sequence := k |})
  end.

(** [UPDATE items SET claimed = TRUE WHERE id = ?] *)
Definition set_claimed (r : Row) : Row :=
  {| col_name := col_name r;
     col_description := col_description r;
     col_location := col_location r;
     col_date_found := col_date_found r;
     col_contact_info := col_contact_info r;
     col_claimed := INTEGER 1 |}.

Definition update_claimed_where_id (item_id : Z) (db : Store) : result Store :=
  match bind_int item_id with
  | Raise e => Raise e
  | Return k =>
      Return {| items := alter set_claimed k (items db);
                sqlite_sequence := sqlite_sequence db |}
  end.

(** [DELETE FROM items WHERE id = ?] *)
Definition delete_from_items_where_id (item_id : Z) (db : Store) : result Store :=
  match bind_int item_id with
  | Raise e => Raise e
  | Return k =>
      Return {| items := delete k (items db);
                sqlite_sequence := sqlite_sequence db |}
  end.

(** ** The request handlers *)

Definition not_found : exception := HTTPException 404 "Item not found".

(** [get_items]: all rows, newest [date_found] first, as dictionaries. *)
Definition get_items (db : Store) : result (list (gmap string value)) * Store :=
  let items := dict_factory description_of_items
                 <$> select_order_by_date_found_desc db in
  (Return items, db).

(** [create_item]: insert, then answer with the fields of the request and
    the new id. *)
Definition create_item (item : Item) (db : Store)
  : result (gmap string value) * Store :=
  match insert_into_items (name item) (description item) (location item)
          (date_found item) (contact_info item) db with
  | Raise e => (Raise e, db)
  | Return (item_id, db') =>
      (Return (<["id" := VInt item_id]> (Item_dict item)), db')
  end.

(** [claim_item]: look the row up; without it 404, otherwise set the flag.
    No row factory is set here, so the row fetched is a plain tuple. *)
Definition claim_item (item_id : Z) (db : Store)
  : result (gmap string value) * Store :=
  match select_where_id item_id db with
  | Raise e => (Raise e, db)
  | Return rows =>
      match head rows with
      | None => (Raise not_found, db)
      | Some _ =>
          match update_claimed_where_id item_id db with
          | Raise e => (Raise e, db)
          | Return db' =>
              (Return {["message" := VStr "Item claimed successfully"]}, db')
          end
      end
  end.

(** [delete_item]: look the row up; without it 404, otherwise delete. *)
Definition delete_item (item_id : Z) (db : Store)
  : result (gmap string value) * Store :=
  match select_where_id item_id db with
  | Raise e => (Raise e, db)
  | Return rows =>
      match head rows with
      | None => (Raise not_found, db)
      | Some _ =>
          match delete_from_items_where_id item_id db with
          | Raise e => (Raise e, db)
          | Return db' =>
              (Return {["message" := VStr "Item deleted successfully"]}, db')
          end
      end
  end.

(** [get_item]: the row as a dictionary, or 404. *)
Definition get_item (item_id : Z) (db : Store)
  : result (gmap string value) * Store :=
  match select_where_id item_id db with
  | Raise e => (Raise e, db)
  | Return rows =>
      match dict_factory description_of_items <$> head rows with
      | None => (Raise not_found, db)
      | Some item => (Return item, db)
      end
  end.

(** ** The application *)

(** The five routes.  The body of [POST /items] is validated against [Item]
    before [create_item] runs. *)
Inductive request :=
| GET_items
| POST_items (body : ItemBody)
| PUT_items_claim (item_id : Z)
| DELETE_items (item_id : Z)
| GET_items_id (item_id : Z).

Inductive reply :=
| Listing (l : list (gmap string value))
| Single (d : gmap string value).

Definition reply_with {A} (f : A → reply) (out : result A * Store)
  : result reply * Store :=
  match out.1 with
  | Return a => (Return (f a), out.2)
  | Raise e => (Raise e, out.2)
  end.

Definition app (req : request) (db : Store) : result reply * Store :=
  match req with
  | GET_items => reply_with Listing (get_items db)
  | POST_items body =>
      match Item_validate body with
      | Raise e => (Raise e, db)
      | Return item => reply_with Single (create_item item db)
      end
  | PUT_items_claim item_id => reply_with Single (claim_item item_id db)
  | DELETE_items item_id => reply_with Single (delete_item item_id db)
  | GET_items_id item_id => reply_with Single (get_item item_id db)
  end.

(** Serving a sequence of requests, one after the other; the log pairs
    every request with its outcome. *)
Fixpoint serve (reqs : list request) (db : Store)
  : list (request * result reply) * Store :=
  match reqs with
  | [] => ([], db)
  | req :: reqs =>
      let out := app req db in
      let rest := serve reqs out.2 in
      ((req, out.1) :: rest.1, rest.2)
  end.

(** The id a logged exchange assigned, if it was a successful create. *)
Definition created_id (x : request * result reply) : option Z :=
  match x with
  | (POST_items _, Return (Single d)) => as_int (d !! "id")
  | _ => None
  end.

Definition created_ids (log : list (request * result reply)) : list Z :=
  omap created_id log.

(** ** Well-formed databases *)

Definition in_int64 (n : Z) : Prop := INT64_MIN ≤ n ≤ INT64_MAX.

(** What SQLite maintains for an [AUTOINCREMENT] table: rowids and the
    counter are 64-bit integers, and the counter is at least every rowid
    present. *)
Record store_ok (db : Store) : Prop := {
  sequence_in_int64 : in_int64 (sqlite_sequence db);
  rowid_in_int64 : ∀ k, is_Some (items db !! k) → in_int64 k;
  rowid_le_sequence : ∀ k, is_Some (items db !! k) → k ≤ sqlite_sequence db
}.

(** The row [create_item] stores for an item. *)
Definition row_of_item (item : Item) : Row :=
  {| col_name := TEXT (name item);
     col_description := TEXT (description item);
     col_location := TEXT (location item);
     col_date_found := TEXT (isoformat (date_found item));
     col_contact_info := TEXT (contact_info item);
     col_claimed := INTEGER 0 |}.

(** The states of a database that [init_db] created. *)
Definition reachable (db : Store) : Prop :=
  ∃ reqs, (serve reqs (init_db None)).2 = db.

(** The flag of a row is one of SQLite's two booleans. *)
Definition flag_ok (r : Row) : Prop :=
  col_claimed r = INTEGER 0 ∨ col_claimed r = INTEGER 1.

(** What one request can do to the database, with the id it assigned:
    nothing, insert a row under a new rowid, set the flag of a row, or
    delete a row. *)
Inductive transition (db : Store) : option Z → Store → Prop :=
| transition_none :
    transition db None db
| transition_insert k item :
    new_rowid db = Some k →
    transition db (Some k)
      {| items := <[k := row_of_item item]> (items db);
         sqlite_sequence := k |}
| transition_claim k r :
    items db !! k = Some r →
    transition db None
      {| items := <[k := set_claimed r]> (items db);
         sqlite_sequence := sqlite_sequence db |}
| transition_delete k r :
    items db !! k = Some r →
    transition db None
      {| items := delete k (items db);
         sqlite_sequence := sqlite_sequence db |}.

(** Rowid [k] holds a claimed row, or holds none and is not above the
    counter (so that it will not be assigned). *)
Definition claimed_or_retired (k : Z) (db : Store) : Prop :=
  match items db !! k with
  | Some r => col_claimed r = INTEGER 1
  | None => k ≤ sqlite_sequence db
  end.

(** The dictionary the row factory makes of a row of [SELECT *]. *)
Definition row_dict (r : Z * Row) : gmap string value :=
  dict_factory description_of_items (tuple r).

(** The messages of [claim_item] and [delete_item]. *)
Definition claimed_message : gmap string value :=
  {["message" := VStr "Item claimed successfully"]}.

Definition deleted_message : gmap string value :=
  {["message" := VStr "Item deleted successfully"]}.

(** The fields of an item as they are stored: [claimed] is [False]. *)
Definition unclaimed (item : Item) : Item :=
  {| name := name item; description := description item;
     location := location item; date_found := date_found item;
     contact_info := contact_info item; claimed := Some false |}.


(** ** Sample requests *)

Definition wallet : Item :=
  {| name := "Wallet"; description := ""; location := "Library";
     date_found := Date 2024 1 10; contact_info := "x@y.com";
     claimed := Some false |}.

(** A request that asks for the item to be created as claimed. *)
Definition keys : Item :=
  {| name := "Keys"; description := "Two keys on a ring"; location := "Gym";
     date_found := Date 2024 3 2; contact_info := "k@y.com";
     claimed := Some true |}.

Definition body_of (item : Item) : ItemBody :=
  {| body_name := Some (name item);
     body_description := Some (description item);
     body_location := Some (location item);
     body_date_found := Some (date_found item);
     body_contact_info := Some (contact_info item);
     body_claimed := Some (claimed item) |}.


(** The same with an empty [description]. *)
Definition wallet_with_description : ItemBody :=
  {| body_name := Some "Wallet"%string;
     body_description := Some ""%string;
     body_location := Some "Library"%string;
     body_date_found := Some (Date 2024 1 10);
     body_contact_info := Some "x@y.com"%string;
     body_claimed := None |}.

(** ** The interactive menu *)

(** [show_menu] reads lines from the terminal and calls the handlers
    directly.  Nothing in it catches an exception, so whatever a handler, a
    conversion or [input] raises ends the menu. *)
Inductive menu_error :=
| Uncaught (e : exception)
| EOFError
| ValueError
| ValidationError.

(** What the menu writes: the text of a [print], the prompt of an [input],
    and the objects given to [print(items)] and [print(item)]. *)
Inductive printed :=
| Line (s : string)
| Prompt (s : string)
| Objects (l : list (gmap string value))
| Object (d : gmap string value).

Record session := {
  outcome : option menu_error;
  stdout : list printed;
  database : Store
}.

Definition say (out : list printed) (s : session) : session :=
  {| outcome := outcome s; stdout := out ++ stdout s;
     database := database s |}.

Definition newline : string := String (ascii_of_nat 10) EmptyString.

(** The six [print]s at the head of the loop and the prompt of the first
    [input]. *)
Definition menu_text : list printed :=
  [Line (newline ++ "Please choose an option by number:");
   Line "1. To see all items";
   Line "2. To add an item";
   Line "3. To delete an item";
   Line "4. To find an item by ID";
   Line "5. Exit";
   Prompt (newline ++ "Choose the option: ")].

(** The prompts of the five [input]s of option 2, in order. *)
Definition item_prompts : list printed :=
  [Prompt "Enter item name: "; Prompt "Enter description: ";
   Prompt "Enter location: "; Prompt "Enter date found (YYYY-MM-DD): ";
   Prompt "Enter contact info: "].

(** [show_menu], on the lines that the terminal will supply.  [input] on an
    exhausted terminal raises [EOFError].  The conversions [int(...)] of a
    line and of the date text by [Item(...)] belong to Python and pydantic:
    they are the parameters [int] and [parse_date], with [None] for a line
    they refuse. *)
Fixpoint show_menu (int : string → option Z)
    (parse_date : string → option date)
    (stdin : list string) (db : Store) {struct stdin} : session :=
  match stdin with
  | [] => {| outcome := Some EOFError; stdout := menu_text; database := db |}
  | choice :: stdin =>
      say menu_text
      (if String.eqb choice "1" then
         let out := get_items db in
         match out.1 with
         | Raise e =>
             {| outcome := Some (Uncaught e);
                stdout := [Line (newline ++ "Fetching all items..." ++ newline)];
                database := out.2 |}
         | Return items =>
             say [Line (newline ++ "Fetching all items..." ++ newline);
                  Objects items]
                 (show_menu int parse_date stdin out.2)
         end
       else if String.eqb choice "2" then
         match stdin with
         | n :: d :: l :: df :: c :: stdin =>
             say item_prompts
             (match parse_date df with
              | None => {| outcome := Some ValidationError; stdout := [];
                           database := db |}
              | Some df =>
                  match Item_validate
                          {| body_name := Some n; body_description := Some d;
                             body_location := Some l;
                             body_date_found := Some df;
                             body_contact_info := Some c;
                             body_claimed := None |} with
                  | Raise _ => {| outcome := Some ValidationError;
                                  stdout := []; database := db |}
                  | Return item_data =>
                      let out := create_item item_data db in
                      match out.1 with
                      | Raise e => {| outcome := Some (Uncaught e);
                                      stdout := []; database := out.2 |}
                      | Return _ => show_menu int parse_date stdin out.2
                      end
                  end
              end)
         | _ =>
             {| outcome := Some EOFError;
                stdout := take (S (length stdin)) item_prompts;
                database := db |}
         end
       else if String.eqb choice "3" then
         say [Prompt "Enter item ID to delete: "]
         (match stdin with
          | [] => {| outcome := Some EOFError; stdout := []; database := db |}
          | line :: stdin =>
              match int line with
              | None => {| outcome := Some ValueError; stdout := [];
                           database := db |}
              | Some item_id =>
                  let out := delete_item item_id db in
                  match out.1 with
                  | Raise e => {| outcome := Some (Uncaught e);
                                  stdout := []; database := out.2 |}
                  | Return _ => show_menu int parse_date stdin out.2
                  end
              end
          end)
       else if String.eqb choice "4" then
         say [Prompt "Enter item ID to find: "]
         (match stdin with
          | [] => {| outcome := Some EOFError; stdout := []; database := db |}
          | line :: stdin =>
              match int line with
              | None => {| outcome := Some ValueError; stdout := [];
                           database := db |}
              | Some item_id =>
                  let out := get_item item_id db in
                  match out.1 with
                  | Raise e => {| outcome := Some (Uncaught e);
                                  stdout := []; database := out.2 |}
                  | Return item =>
                      say [Object item] (show_menu int parse_date stdin out.2)
                  end
              end
          end)
       else if String.eqb choice "5" then
         {| outcome := None; stdout := [Line "Exiting..."]; database := db |}
       else
         say [Line "Invalid option. Please try again."]
             (show_menu int parse_date stdin db))
  end.

(** A reader of plain decimal numerals, for running the menu on sample
    input. *)
Fixpoint decimal_from (acc : Z) (s : string) : option Z :=
  match s with
  | EmptyString => Some acc
  | String c s => n ← digit_value c; decimal_from (10 * acc + n) s
  end.

Definition decimal (s : string) : option Z :=
  match s with
  | EmptyString => None
  | _ => decimal_from 0 s
  end.

(** ** More vocabulary for the properties *)

(** The list that [get_items] answers with. *)
Definition listing (db : Store) : list (gmap string value) :=
  match (get_items db).1 with
  | Return l => l
  | Raise _ => []
  end.

(** The requests that the menu can cause: all but the claim. *)
Definition menu_request (req : request) : Prop :=
  match req with
  | PUT_items_claim _ => False
  | _ => True
  end.

(** A request whose date, if it carries one, is a date of the calendar. *)
Definition valid_request (req : request) : Prop :=
  match req with
  | POST_items body =>
      ∀ d, body_date_found body = Some d → date_valid d = true
  | _ => True
  end.

(** A row as the application writes it: the row of an item with a date of
    the calendar, unclaimed or claimed. *)
Definition row_written (r : Row) : Prop :=
  ∃ item, date_valid (date_found item) = true ∧
          (r = row_of_item item ∨ r = set_claimed (row_of_item item)).

(** The fields of an item once it is claimed. *)
Definition claimed_item (item : Item) : Item :=
  {| name := name item; description := description item;
     location := location item; date_found := date_found item;
     contact_info := contact_info item; claimed := Some true |}.

(** The date a dictionary of a listing shows through the response model. *)
Definition shown_date (d : gmap string value) : option date :=
  date_found ∘ fields <$> response_model d.

Definition not_older (a b : date) : Prop := date_compare a b ≠ Lt.

(** * Properties *)

(** Arithmetic on the bounds of a 64-bit integer. *)
Ltac int64 := unfold in_int64, INT64_MIN, INT64_MAX in *; lia.

(** ** Dates and their ISO text *)

Section iso_dates.

Ltac digit_cases n :=
  let H := fresh in
  assert (H : n = 0 ∨ n = 1 ∨ n = 2 ∨ n = 3 ∨ n = 4 ∨ n = 5 ∨ n = 6
              ∨ n = 7 ∨ n = 8 ∨ n = 9) by lia;
  repeat (destruct H as [H | H]; [subst n | ]); [.. | subst n].

Ltac euclid := Z.to_euclidean_division_equations; lia.

Lemma digit_value_digit n : 0 ≤ n ≤ 9 → digit_value (digit n) = Some n.
Proof. intros Hn. digit_cases n; reflexivity. Qed.

Lemma digit_compare a b :
  0 ≤ a ≤ 9 → 0 ≤ b ≤ 9 → Ascii.compare (digit a) (digit b) = (a ?= b).
Proof. intros Ha Hb. digit_cases a; digit_cases b; reflexivity. Qed.

Lemma date_valid_bounds d :
  date_valid d = true →
  1 ≤ year d ≤ 9999 ∧ 1 ≤ month d ≤ 12 ∧ 1 ≤ day d ≤ 31.
Proof.
  unfold date_valid, days_in_month. intros H.
  repeat (apply andb_prop in H as [H ?]).
  repeat case_match; lia.
Qed.

(** Reading the ISO text of a date gives the date back. *)
Lemma fromisoformat_isoformat d :
  date_valid d = true → fromisoformat (isoformat d) = Some d.
Proof.
  intros Hv. destruct (date_valid_bounds d Hv) as (Hy & Hm & Hd).
  destruct d as [y m dd]; simpl in *.
  unfold isoformat, fromisoformat; simpl.
  rewrite !digit_value_digit by euclid. simpl.
  replace (1000 * (y / 1000) + 100 * (y / 100 mod 10)
           + 10 * (y / 10 mod 10) + y mod 10) with y by euclid.
  replace (10 * (m / 10) + m mod 10) with m by euclid.
  replace (10 * (dd / 10) + dd mod 10) with dd by euclid.
  by rewrite Hv.
Qed.

(** Comparing ISO texts byte by byte is comparing the dates. *)
Lemma compare_isoformat d1 d2 :
  date_valid d1 = true → date_valid d2 = true →
  String.compare (isoformat d1) (isoformat d2) = date_compare d1 d2.
Proof.
  intros Hv1 Hv2.
  destruct (date_valid_bounds d1 Hv1) as (Hy1 & Hm1 & Hd1).
  destruct (date_valid_bounds d2 Hv2) as (Hy2 & Hm2 & Hd2).
  destruct d1 as [y1 m1 dd1], d2 as [y2 m2 dd2]; simpl in *.
  unfold isoformat, date_compare; simpl.
  rewrite !digit_compare by euclid.
  change (Ascii.compare "-" "-") with Eq.
  repeat match goal with
  | |- context [?a ?= ?b] =>
      lazymatch a with
      | context [Z.div] => idtac
      | context [Z.modulo] => idtac
      end;
      destruct (Z.compare_spec a b)
  end;
  repeat match goal with
  | |- context [?a ?= ?b] => destruct (Z.compare_spec a b)
  end; try reflexivity; exfalso; euclid.
Qed.

End iso_dates.

(** ** The order of [ORDER BY] *)

Section sql_order.

Lemma ascii_compare_refl c : Ascii.compare c c = Eq.
Proof. unfold Ascii.compare. apply N.compare_refl. Qed.

Lemma string_compare_not_gt_trans s t u :
  String.compare s t ≠ Gt → String.compare t u ≠ Gt →
  String.compare s u ≠ Gt.
Proof.
  revert t u. induction s as [|a s IH]; intros [|b t] [|c u]; simpl;
    try done.
  destruct (Ascii.compare a b) eqn:Hab; [| |done];
    destruct (Ascii.compare b c) eqn:Hbc; try done.
  - apply Ascii.compare_eq_iff in Hab as ->.
    apply Ascii.compare_eq_iff in Hbc as ->.
    rewrite ascii_compare_refl. apply IH.
  - apply Ascii.compare_eq_iff in Hab as ->. by rewrite Hbc.
  - apply Ascii.compare_eq_iff in Hbc as <-. by rewrite Hab.
  - unfold Ascii.compare in *. rewrite N.compare_lt_iff in Hab, Hbc.
    assert (Hac : (N_of_ascii a < N_of_ascii c)%N) by lia.
    apply N.compare_lt_iff in Hac. by rewrite Hac.
Qed.

Lemma sql_compare_antisym a b : sql_compare a b = CompOpp (sql_compare b a).
Proof.
  destruct a, b; simpl; try done.
  - apply Z.compare_antisym.
  - apply String.compare_antisym.
Qed.

Lemma sql_leb_total a b : sql_leb a b = true ∨ sql_leb b a = true.
Proof.
  unfold sql_leb. rewrite (sql_compare_antisym b a).
  destruct (sql_compare a b); simpl; auto.
Qed.

Lemma sql_leb_trans a b c :
  sql_leb a b = true → sql_leb b c = true → sql_leb a c = true.
Proof.
  unfold sql_leb.
  destruct a as [|x|s], b as [|y|t], c as [|z|u]; simpl; try done.
  - destruct (Z.compare_spec x y), (Z.compare_spec y z),
      (Z.compare_spec x z); try done; lia.
  - intros H1 H2.
    pose proof (string_compare_not_gt_trans s t u) as H.
    destruct (String.compare s t), (String.compare t u),
      (String.compare s u); try done; exfalso; by apply H.
Qed.

#[global] Instance date_found_desc_total : Total date_found_desc.
Proof. intros r1 r2. unfold date_found_desc. apply sql_leb_total. Qed.

#[global] Instance date_found_desc_trans : Transitive date_found_desc.
Proof.
  intros r1 r2 r3 H12 H23. unfold date_found_desc in *.
  by eapply sql_leb_trans.
Qed.

End sql_order.

(** ** Rowids *)

Section rowids.

Lemma bind_int_in_int64 n : in_int64 n → bind_int n = Return n.
Proof.
  unfold in_int64, bind_int. intros [H1 H2].
  apply Z.leb_le in H1, H2. by rewrite H1, H2.
Qed.

Lemma bind_int_overflow n : ¬ in_int64 n → bind_int n = Raise OverflowError.
Proof.
  unfold in_int64, bind_int. intros H.
  destruct (Z.leb_spec INT64_MIN n), (Z.leb_spec n INT64_MAX); simpl;
    try done; lia.
Qed.

Lemma bind_int_Return n k : bind_int n = Return k → k = n ∧ in_int64 n.
Proof.
  unfold in_int64, bind_int.
  destruct (Z.leb_spec INT64_MIN n), (Z.leb_spec n INT64_MAX); simpl;
    intros [= <-]; auto.
Qed.

Lemma last_rowid_spec (m : gmap Z Row) :
  match last_rowid m with
  | None => m = ∅
  | Some j => is_Some (m !! j) ∧ ∀ k, is_Some (m !! k) → k ≤ j
  end.
Proof.
  unfold last_rowid.
  apply (map_fold_weak_ind (λ acc (m : gmap Z Row),
    match acc with
    | None => m = ∅
    | Some j => is_Some (m !! j) ∧ ∀ k, is_Some (m !! k) → k ≤ j
    end)); [done|].
  intros i x m' [j|] Hi IH.
  - destruct IH as [Hj Hmax]. split.
    + destruct (Z.max_spec i j) as [[_ ->] | [_ ->]].
      * rewrite lookup_insert_ne; [done|]. intros ->. rewrite Hi in Hj.
        by destruct Hj.
      * rewrite lookup_insert_eq. eauto.
    + intros k. rewrite lookup_insert. case_decide as Hk.
      * lia.
      * intros Hk'. specialize (Hmax k Hk'). lia.
  - subst m'. split.
    + rewrite lookup_insert_eq. eauto.
    + intros k. rewrite lookup_insert. case_decide as Hk; [lia|].
      rewrite lookup_empty. by intros [? ?].
Qed.

(** A new rowid is larger than the counter and than every rowid present. *)
Lemma new_rowid_Some db k :
  new_rowid db = Some k →
  sqlite_sequence db < k ∧ k ≤ INT64_MAX ∧
  ∀ j, is_Some (items db !! j) → j < k.
Proof.
  unfold new_rowid. pose proof (last_rowid_spec (items db)) as Hlast.
  destruct (last_rowid (items db)) as [j|].
  - destruct Hlast as [_ Hmax].
    destruct (Z.leb_spec INT64_MAX j); [done|].
    destruct (Z.leb_spec INT64_MAX (sqlite_sequence db)); [done|].
    intros [= <-]. repeat split; [lia..|].
    intros i Hi. specialize (Hmax i Hi). lia.
  - destruct (Z.leb_spec INT64_MAX (sqlite_sequence db)); [done|].
    intros [= <-]. repeat split; [int64..|].
    intros i. rewrite Hlast, lookup_empty. by intros [? ?].
Qed.

Lemma new_rowid_fresh db k : new_rowid db = Some k → items db !! k = None.
Proof.
  intros (_ & _ & H)%new_rowid_Some.
  destruct (items db !! k) eqn:Hk; [|done].
  specialize (H k). rewrite Hk in H. specialize (H (ltac:(eauto))). lia.
Qed.


End rowids.

(** ** The handlers, case by case *)

Section handlers.

Implicit Types (db : Store) (k : Z) (r : Row) (item : Item).

Lemma row_dict_lookup k r :
  row_dict (k, r) !! "id" = Some (VInt k) ∧
  row_dict (k, r) !! "name" = Some (convert (col_name r)) ∧
  row_dict (k, r) !! "description" = Some (convert (col_description r)) ∧
  row_dict (k, r) !! "location" = Some (convert (col_location r)) ∧
  row_dict (k, r) !! "date_found" = Some (convert (col_date_found r)) ∧
  row_dict (k, r) !! "contact_info" = Some (convert (col_contact_info r)) ∧
  row_dict (k, r) !! "claimed" = Some (convert (col_claimed r)).
Proof. destruct r. repeat split; reflexivity. Qed.

Lemma select_where_id_in_int64 k db :
  in_int64 k →
  select_where_id k db =
    Return (match items db !! k with Some r => [tuple (k, r)] | None => [] end).
Proof. intros Hk. unfold select_where_id. by rewrite bind_int_in_int64. Qed.

Lemma select_where_id_overflow k db :
  ¬ in_int64 k → select_where_id k db = Raise OverflowError.
Proof. intros Hk. unfold select_where_id. by rewrite bind_int_overflow. Qed.

Lemma get_item_Some k r db :
  in_int64 k → items db !! k = Some r →
  get_item k db = (Return (row_dict (k, r)), db).
Proof.
  intros Hk Hr. unfold get_item.
  by rewrite select_where_id_in_int64, Hr.
Qed.

Lemma get_item_None k db :
  in_int64 k → items db !! k = None → get_item k db = (Raise not_found, db).
Proof.
  intros Hk Hr. unfold get_item.
  by rewrite select_where_id_in_int64, Hr.
Qed.

Lemma get_item_overflow k db :
  ¬ in_int64 k → get_item k db = (Raise OverflowError, db).
Proof. intros Hk. unfold get_item. by rewrite select_where_id_overflow. Qed.

Lemma claim_item_Some k r db :
  in_int64 k → items db !! k = Some r →
  claim_item k db =
    (Return claimed_message,
     {| items := <[k := set_claimed r]> (items db);
        sqlite_sequence := sqlite_sequence db |}).
Proof.
  intros Hk Hr. unfold claim_item, update_claimed_where_id.
  rewrite select_where_id_in_int64, Hr, bind_int_in_int64 by done. simpl.
  do 2 f_equal. apply map_eq. intros j.
  rewrite lookup_alter, lookup_insert. case_decide; subst; by rewrite ?Hr.
Qed.

Lemma claim_item_None k db :
  in_int64 k → items db !! k = None → claim_item k db = (Raise not_found, db).
Proof.
  intros Hk Hr. unfold claim_item.
  by rewrite select_where_id_in_int64, Hr.
Qed.

Lemma claim_item_overflow k db :
  ¬ in_int64 k → claim_item k db = (Raise OverflowError, db).
Proof. intros Hk. unfold claim_item. by rewrite select_where_id_overflow. Qed.

Lemma delete_item_Some k r db :
  in_int64 k → items db !! k = Some r →
  delete_item k db =
    (Return deleted_message,
     {| items := delete k (items db);
        sqlite_sequence := sqlite_sequence db |}).
Proof.
  intros Hk Hr. unfold delete_item, delete_from_items_where_id.
  by rewrite select_where_id_in_int64, Hr, bind_int_in_int64.
Qed.

Lemma delete_item_None k db :
  in_int64 k → items db !! k = None → delete_item k db = (Raise not_found, db).
Proof.
  intros Hk Hr. unfold delete_item.
  by rewrite select_where_id_in_int64, Hr.
Qed.

Lemma delete_item_overflow k db :
  ¬ in_int64 k → delete_item k db = (Raise OverflowError, db).
Proof. intros Hk. unfold delete_item. by rewrite select_where_id_overflow. Qed.

Lemma create_item_Some item db k :
  new_rowid db = Some k →
  create_item item db =
    (Return (<["id" := VInt k]> (Item_dict item)),
     {| items := <[k := row_of_item item]> (items db);
        sqlite_sequence := k |}).
Proof. intros Hk. unfold create_item, insert_into_items. by rewrite Hk. Qed.

Lemma create_item_None item db :
  new_rowid db = None → create_item item db = (Raise OperationalError, db).
Proof. intros Hk. unfold create_item, insert_into_items. by rewrite Hk. Qed.

(** What the response model reads from the answer of [create_item] and
    from a stored row. *)
Lemma response_model_created item k :
  response_model (<["id" := VInt k]> (Item_dict item))
  = Some {| id := k; fields := item |}.
Proof. destruct item as [n d l df c [[]|]]; reflexivity. Qed.

Lemma response_model_stored item k :
  date_valid (date_found item) = true →
  response_model (row_dict (k, row_of_item item))
  = Some {| id := k; fields := unclaimed item |}.
Proof.
  intros Hv. unfold response_model.
  destruct (row_dict_lookup k (row_of_item item))
    as (-> & -> & -> & -> & -> & -> & ->).
  cbn -[fromisoformat isoformat]. by rewrite fromisoformat_isoformat.
Qed.

End handlers.

(** ** Invariants of the application *)

Section invariants.

Implicit Types (db : Store) (k : Z) (r : Row) (req : request).

Lemma store_ok_init_db : store_ok (init_db None).
Proof.
  split; simpl.
  - int64.
  - intros k. rewrite lookup_empty. by intros [? ?].
  - intros k. rewrite lookup_empty. by intros [? ?].
Qed.

(** Every request is one of the four transitions. *)
Lemma app_transition req db :
  transition db (created_id (req, (app req db).1)) (app req db).2.
Proof.
  destruct req as [|body|k|k|k]; simpl.
  - constructor.
  - destruct (Item_validate body) as [item|e]; [|constructor].
    destruct (new_rowid db) as [k|] eqn:Hk.
    + rewrite (create_item_Some _ _ _ Hk). simpl.
      rewrite lookup_insert_eq. simpl. by constructor.
    + rewrite (create_item_None _ _ Hk). constructor.
  - destruct (decide (in_int64 k)) as [Hk|Hk].
    + destruct (items db !! k) as [r|] eqn:Hr.
      * rewrite (claim_item_Some _ _ _ Hk Hr). simpl. by constructor.
      * rewrite (claim_item_None _ _ Hk Hr). constructor.
    + rewrite (claim_item_overflow _ _ Hk). constructor.
  - destruct (decide (in_int64 k)) as [Hk|Hk].
    + destruct (items db !! k) as [r|] eqn:Hr.
      * rewrite (delete_item_Some _ _ _ Hk Hr). simpl.
        by econstructor.
      * rewrite (delete_item_None _ _ Hk Hr). constructor.
    + rewrite (delete_item_overflow _ _ Hk). constructor.
  - destruct (decide (in_int64 k)) as [Hk|Hk].
    + destruct (items db !! k) as [r|] eqn:Hr.
      * rewrite (get_item_Some _ _ _ Hk Hr). constructor.
      * rewrite (get_item_None _ _ Hk Hr). constructor.
    + rewrite (get_item_overflow _ _ Hk). constructor.
Qed.

Lemma transition_store_ok db o db' :
  store_ok db → transition db o db' → store_ok db'.
Proof.
  intros [Hseq Hin Hle] Htr. inversion Htr as [|k item Hk|k r Hr|k r Hr];
    subst; [done|..]; split; simpl; try done.
  - apply new_rowid_Some in Hk. int64.
  - intros j. rewrite lookup_insert. case_decide; [|by auto].
    subst. apply new_rowid_Some in Hk. int64.
  - intros j. rewrite lookup_insert. case_decide; [lia|].
    intros Hj. apply new_rowid_Some in Hk as (_ & _ & Hk).
    specialize (Hk j Hj). lia.
  - intros j. rewrite lookup_insert. case_decide; [|by auto].
    subst. intros _. apply Hin. eauto.
  - intros j. rewrite lookup_insert. case_decide; [|by auto].
    subst. intros _. apply Hle. eauto.
  - intros j. rewrite lookup_delete. case_decide; [by intros [? ?]|by auto].
  - intros j. rewrite lookup_delete. case_decide; [by intros [? ?]|by auto].
Qed.

Lemma app_store_ok req db : store_ok db → store_ok (app req db).2.
Proof. intros Hok. eapply transition_store_ok, app_transition; done. Qed.

Lemma serve_store_ok reqs db : store_ok db → store_ok (serve reqs db).2.
Proof.
  revert db. induction reqs as [|req reqs IH]; intros db Hok; simpl; [done|].
  by apply IH, app_store_ok.
Qed.

Lemma reachable_store_ok db : reachable db → store_ok db.
Proof. intros [reqs <-]. apply serve_store_ok, store_ok_init_db. Qed.

Lemma serve_app reqs1 reqs2 db :
  (serve (reqs1 ++ reqs2) db).2 = (serve reqs2 (serve reqs1 db).2).2.
Proof.
  revert db. induction reqs1 as [|req reqs1 IH]; intros db; simpl; [done|].
  apply IH.
Qed.

Lemma reachable_serve reqs db : reachable db → reachable (serve reqs db).2.
Proof.
  intros [reqs0 <-]. exists (reqs0 ++ reqs). apply serve_app.
Qed.

(** The counter never decreases, and an assigned id is above it. *)
Lemma transition_sequence db o db' :
  transition db o db' →
  sqlite_sequence db ≤ sqlite_sequence db' ∧
  ∀ k, o = Some k → sqlite_sequence db < k ∧ sqlite_sequence db' = k.
Proof.
  intros Htr. inversion Htr as [|k item Hk|k r Hr|k r Hr]; subst; simpl;
    try (split; [lia|done]).
  apply new_rowid_Some in Hk. split; [lia|]. intros ? [= <-]. lia.
Qed.

(** The ids assigned while serving are above the counter at the start and
    increase. *)
Lemma created_ids_cons req reqs db :
  created_ids (serve (req :: reqs) db).1 =
    match created_id (req, (app req db).1) with
    | Some k => k :: created_ids (serve reqs (app req db).2).1
    | None => created_ids (serve reqs (app req db).2).1
    end.
Proof. reflexivity. Qed.

Lemma created_ids_serve reqs db :
  Forall (λ k, sqlite_sequence db < k) (created_ids (serve reqs db).1) ∧
  StronglySorted Z.lt (created_ids (serve reqs db).1).
Proof.
  revert db. induction reqs as [|req reqs IH]; intros db.
  { split; constructor. }
  destruct (IH (app req db).2) as [Hall Hsorted].
  destruct (transition_sequence _ _ _ (app_transition req db)) as [Hmono Hnew].
  rewrite created_ids_cons.
  destruct (created_id (req, (app req db).1)) as [k|] eqn:Hk.
  - destruct (Hnew k eq_refl) as [Hlt Heq]. split.
    + constructor; [done|]. eapply Forall_impl; [done|]. simpl. lia.
    + constructor; [done|]. eapply Forall_impl; [done|]. simpl. lia.
  - split; [|done]. eapply Forall_impl; [done|]. simpl. lia.
Qed.

(** Every stored flag is 0 or 1. *)
Lemma transition_flag_ok db o db' :
  transition db o db' →
  (∀ k r, items db !! k = Some r → flag_ok r) →
  ∀ k r, items db' !! k = Some r → flag_ok r.
Proof.
  intros Htr Hflags. inversion Htr as [|k item Hk|k r Hr|k r Hr]; subst;
    simpl; [done|..]; intros j r'.
  - rewrite lookup_insert. case_decide; [|by eauto].
    intros [= <-]. by left.
  - rewrite lookup_insert. case_decide; [|by eauto].
    intros [= <-]. by right.
  - rewrite lookup_delete. case_decide; [done|by eauto].
Qed.

Lemma reachable_flag_ok db k r :
  reachable db → items db !! k = Some r → flag_ok r.
Proof.
  intros [reqs <-]. revert k r.
  assert (∀ db0, (∀ k r, items db0 !! k = Some r → flag_ok r) →
            ∀ k r, items (serve reqs db0).2 !! k = Some r → flag_ok r) as H.
  { induction reqs as [|req reqs IH]; intros db0 H0; simpl; [done|].
    apply IH. eapply transition_flag_ok; [apply app_transition|done]. }
  apply H. intros k r. simpl. by rewrite lookup_empty.
Qed.

(** A row that a request adds is unclaimed. *)
Lemma transition_new_row db o db' k r :
  transition db o db' →
  items db !! k = None → items db' !! k = Some r → col_claimed r = INTEGER 0.
Proof.
  intros Htr Hk. inversion Htr as [|j item Hj|j r0 Hr|j r0 Hr]; subst; simpl.
  - by rewrite Hk.
  - rewrite lookup_insert. case_decide; [|by rewrite Hk].
    by intros [= <-].
  - rewrite lookup_insert. case_decide; [|by rewrite Hk]. congruence.
  - rewrite lookup_delete. case_decide; [done|by rewrite Hk].
Qed.

(** A rowid that the table held and no longer holds is never given again:
    once a claimed row or a retired rowid, always one. *)
Lemma transition_claimed_or_retired k db o db' :
  store_ok db → transition db o db' →
  claimed_or_retired k db → claimed_or_retired k db'.
Proof.
  intros Hok Htr. unfold claimed_or_retired.
  inversion Htr as [|j item Hj|j r0 Hr|j r0 Hr]; subst; simpl; [done|..].
  - apply new_rowid_Some in Hj as (Hlt & _ & Hj).
    rewrite lookup_insert. case_decide as Hjk.
    + subst j. destruct (items db !! k) as [r|] eqn:Hr.
      * specialize (Hj k ltac:(eauto)). lia.
      * lia.
    + destruct (items db !! k); [done|lia].
  - rewrite lookup_insert. case_decide as Hjk; [done|].
    by destruct (items db !! k).
  - rewrite lookup_delete. case_decide as Hjk; [|done].
    subst j. intros _. apply (rowid_le_sequence _ Hok). eauto.
Qed.

(** A rowid that is absent and not above the counter stays absent. *)
Lemma transition_retired k db o db' :
  transition db o db' →
  items db !! k = None → k ≤ sqlite_sequence db → items db' !! k = None.
Proof.
  intros Htr Hk Hle.
  inversion Htr as [|j item Hj|j r0 Hr|j r0 Hr]; subst; simpl; [done|..].
  - apply new_rowid_Some in Hj as (Hlt & _ & _).
    rewrite lookup_insert_ne; [done|lia].
  - rewrite lookup_insert_ne; [done|congruence].
  - rewrite lookup_delete. by case_decide.
Qed.

Lemma serve_retired k reqs db :
  items db !! k = None → k ≤ sqlite_sequence db →
  items (serve reqs db).2 !! k = None.
Proof.
  revert db. induction reqs as [|req reqs IH]; intros db Hk Hle; simpl;
    [done|].
  pose proof (app_transition req db) as Htr.
  destruct (transition_sequence _ _ _ Htr) as [Hmono _].
  apply IH; [|lia]. by eapply transition_retired.
Qed.

Lemma serve_claimed_or_retired k reqs db :
  store_ok db → claimed_or_retired k db →
  claimed_or_retired k (serve reqs db).2.
Proof.
  revert db. induction reqs as [|req reqs IH]; intros db Hok Hk; simpl;
    [done|].
  apply IH; [by apply app_store_ok|].
  eapply transition_claimed_or_retired; [done|apply app_transition|done].
Qed.

End invariants.

(** ** Listings *)

Section listings.

Lemma get_items_unfold db :
  get_items db =
    (Return (row_dict <$> merge_sort date_found_desc (map_to_list (items db))),
     db).
Proof.
  unfold get_items, select_order_by_date_found_desc, row_dict.
  by rewrite <- list_fmap_compose.
Qed.

Lemma date_compare_antisym a b : date_compare a b = CompOpp (date_compare b a).
Proof.
  unfold date_compare.
  rewrite (Z.compare_antisym (year a)), (Z.compare_antisym (month a)),
    (Z.compare_antisym (day a)).
  destruct (year a ?= year b), (month a ?= month b), (day a ?= day b); done.
Qed.


Lemma elem_of_merge_sort_items (m : gmap Z Row) (x : Z * Row) :
  x ∈ merge_sort date_found_desc (map_to_list m) ↔ m !! x.1 = Some x.2.
Proof.
  rewrite merge_sort_Permutation. destruct x as [k r].
  apply elem_of_map_to_list.
Qed.

(** The dictionaries of a listing are the rows of the table. *)
Lemma elem_of_get_items db l d :
  (get_items db).1 = Return l →
  d ∈ l ↔ ∃ k r, items db !! k = Some r ∧ d = row_dict (k, r).
Proof.
  rewrite get_items_unfold. simpl. intros [= <-].
  rewrite list_elem_of_fmap. split.
  - intros ([k r] & -> & Hk%elem_of_merge_sort_items). eauto.
  - intros (k & r & Hk & ->). exists (k, r).
    by rewrite elem_of_merge_sort_items.
Qed.

Lemma get_items_not_listed db k l d :
  items db !! k = None →
  (get_items db).1 = Return l → d ∈ l → d !! "id" ≠ Some (VInt k).
Proof.
  intros Hk Hl (j & r & Hj & ->)%(elem_of_get_items _ _ _ Hl).
  destruct (row_dict_lookup j r) as (-> & _). intros [= ->]. congruence.
Qed.

End listings.

(** * The claims *)

Section claims.

Implicit Types (db : Store) (k : Z) (r : Row) (item : Item).

(** C1.  An item that [create_item] created is found by [get_item] under the
    id of the answer: the dictionary fetched holds the name, description,
    location and contact text submitted, the ISO text of the date submitted
    and the flag 0, and the response model reads it as the submitted fields
    with [claimed] false. *)
Theorem create_item_then_get_item item db created db' :
  store_ok db →
  date_valid (date_found item) = true →
  create_item item db = (Return created, db') →
  ∃ k fetched,
    created !! "id" = Some (VInt k) ∧
    get_item k db' = (Return fetched, db') ∧
    fetched !! "id" = Some (VInt k) ∧
    fetched !! "name" = Some (VStr (name item)) ∧
    fetched !! "description" = Some (VStr (description item)) ∧
    fetched !! "location" = Some (VStr (location item)) ∧
    fetched !! "date_found" = Some (VStr (isoformat (date_found item))) ∧
    fetched !! "contact_info" = Some (VStr (contact_info item)) ∧
    fetched !! "claimed" = Some (VInt 0) ∧
    response_model fetched = Some {| id := k; fields := unclaimed item |}.
Proof.
  intros Hok Hv Hcreate.
  destruct (new_rowid db) as [k|] eqn:Hk.
  2: { by rewrite (create_item_None _ _ Hk) in Hcreate. }
  rewrite (create_item_Some _ _ _ Hk) in Hcreate.
  injection Hcreate as <- <-.
  exists k, (row_dict (k, row_of_item item)).
  pose proof (new_rowid_Some _ _ Hk) as (Hlt & Hmax & _).
  assert (in_int64 k) as Hin.
  { pose proof (sequence_in_int64 _ Hok). int64. }
  split; [by rewrite lookup_insert_eq|].
  split; [apply get_item_Some; [done|]; simpl; by rewrite lookup_insert_eq|].
  destruct (row_dict_lookup k (row_of_item item))
    as (-> & -> & -> & -> & -> & -> & ->).
  repeat split; try done. by apply response_model_stored.
Qed.

Lemma create_item_then_get_item_witness :
  ∃ k fetched,
    (<["id" := VInt 1]> (Item_dict wallet)) !! "id" = Some (VInt k) ∧
    get_item k (create_item wallet (init_db None)).2
      = (Return fetched, (create_item wallet (init_db None)).2) ∧
    fetched !! "id" = Some (VInt k) ∧
    fetched !! "name" = Some (VStr (name wallet)) ∧
    fetched !! "description" = Some (VStr (description wallet)) ∧
    fetched !! "location" = Some (VStr (location wallet)) ∧
    fetched !! "date_found" = Some (VStr (isoformat (date_found wallet))) ∧
    fetched !! "contact_info" = Some (VStr (contact_info wallet)) ∧
    fetched !! "claimed" = Some (VInt 0) ∧
    response_model fetched = Some {| id := k; fields := unclaimed wallet |}.
Proof.
  apply (create_item_then_get_item wallet (init_db None)).
  - exact store_ok_init_db.
  - reflexivity.
  - reflexivity.
Defined.

(** C2.  A create request that carries the fields of an item without
    [claimed] is answered with the record that is stored: the answer has the
    new id and [claimed] false, the row stored under that id is unclaimed,
    and the answer and the row, as [get_item] returns it, are read by the
    response model as the same record, whose fields are those of the
    request. *)
Theorem post_items_answer_is_stored body db created db' :
  store_ok db →
  body_claimed body = None →
  (∀ d, body_date_found body = Some d → date_valid d = true) →
  app (POST_items body) db = (Return (Single created), db') →
  ∃ k stored fetched item,
    created !! "id" = Some (VInt k) ∧
    created !! "claimed" = Some (VBool false) ∧
    items db' !! k = Some stored ∧
    col_claimed stored = INTEGER 0 ∧
    get_item k db' = (Return fetched, db') ∧
    fetched = row_dict (k, stored) ∧
    response_model created = Some {| id := k; fields := item |} ∧
    response_model fetched = Some {| id := k; fields := item |} ∧
    claimed item = Some false ∧
    body_name body = Some (name item) ∧
    body_description body = Some (description item) ∧
    body_location body = Some (location item) ∧
    body_date_found body = Some (date_found item) ∧
    body_contact_info body = Some (contact_info item).
Proof.
  intros Hok Hcl Hdate Happ. unfold app, Item_validate in Happ.
  destruct (body_name body) as [n|]; [|done].
  destruct (body_description body) as [d|]; [|done].
  destruct (body_location body) as [l|]; [|done].
  destruct (body_date_found body) as [df|]; [|done].
  destruct (body_contact_info body) as [c|]; [|done].
  rewrite Hcl in Happ. cbn [default] in Happ.
  specialize (Hdate df eq_refl).
  set (item := {| name := n; description := d; location := l;
                  date_found := df; contact_info := c;
                  claimed := Some false |}) in *.
  destruct (new_rowid db) as [k|] eqn:Hk.
  2: { by rewrite (create_item_None _ _ Hk) in Happ. }
  rewrite (create_item_Some _ _ _ Hk) in Happ.
  injection Happ as <- <-.
  pose proof (new_rowid_Some _ _ Hk) as (Hlt & Hmax & _).
  assert (in_int64 k) as Hin.
  { pose proof (sequence_in_int64 _ Hok). int64. }
  exists k, (row_of_item item), (row_dict (k, row_of_item item)), item.
  split; [by rewrite lookup_insert_eq|].
  split; [reflexivity|].
  split; [simpl; by rewrite lookup_insert_eq|].
  split; [done|].
  split; [apply get_item_Some; [done|]; simpl; by rewrite lookup_insert_eq|].
  split; [done|].
  split; [apply response_model_created|].
  split; [by rewrite response_model_stored|].
  done.
Qed.

Lemma post_items_answer_is_stored_witness :
  ∃ k stored fetched item,
    (<["id" := VInt 1]> (Item_dict wallet)) !! "id" = Some (VInt k) ∧
    (<["id" := VInt 1]> (Item_dict wallet)) !! "claimed"
      = Some (VBool false) ∧
    items (create_item wallet (init_db None)).2 !! k = Some stored ∧
    col_claimed stored = INTEGER 0 ∧
    get_item k (create_item wallet (init_db None)).2
      = (Return fetched, (create_item wallet (init_db None)).2) ∧
    fetched = row_dict (k, stored) ∧
    response_model (<["id" := VInt 1]> (Item_dict wallet))
      = Some {| id := k; fields := item |} ∧
    response_model fetched = Some {| id := k; fields := item |} ∧
    claimed item = Some false ∧
    body_name wallet_with_description = Some (name item) ∧
    body_description wallet_with_description = Some (description item) ∧
    body_location wallet_with_description = Some (location item) ∧
    body_date_found wallet_with_description = Some (date_found item) ∧
    body_contact_info wallet_with_description = Some (contact_info item).
Proof.
  apply (post_items_answer_is_stored wallet_with_description (init_db None)).
  - exact store_ok_init_db.
  - reflexivity.
  - intros d [= <-]. reflexivity.
  - reflexivity.
Defined.

(** A request that does carry [claimed = True] is answered with that value,
    while the row is stored with the default: the answer says claimed and
    the stored record, as [get_item] returns it, says unclaimed. *)
Lemma create_item_answer_differs_from_stored :
  ∃ created db' fetched,
    create_item keys (init_db None) = (Return created, db') ∧
    get_item 1 db' = (Return fetched, db') ∧
    created !! "id" = Some (VInt 1) ∧
    created !! "claimed" = Some (VBool true) ∧
    fetched !! "claimed" = Some (VInt 0) ∧
    claimed ∘ fields <$> response_model created = Some (Some true) ∧
    claimed ∘ fields <$> response_model fetched = Some (Some false).
Proof.
  eexists _, _, _. split; [reflexivity|]. split; [reflexivity|].
  repeat split; reflexivity.
Qed.

(** Where the request leaves [claimed] at its default, the answer and the
    stored record are read as the same response. *)
Lemma create_item_answer_is_stored item db created db' :
  store_ok db →
  date_valid (date_found item) = true →
  claimed item = Some false →
  create_item item db = (Return created, db') →
  ∃ k fetched,
    created !! "id" = Some (VInt k) ∧
    get_item k db' = (Return fetched, db') ∧
    response_model created = response_model fetched.
Proof.
  intros Hok Hv Hcl Hcreate.
  destruct (new_rowid db) as [k|] eqn:Hk.
  2: { by rewrite (create_item_None _ _ Hk) in Hcreate. }
  rewrite (create_item_Some _ _ _ Hk) in Hcreate.
  injection Hcreate as <- <-.
  exists k, (row_dict (k, row_of_item item)).
  pose proof (new_rowid_Some _ _ Hk) as (Hlt & Hmax & _).
  assert (in_int64 k) as Hin.
  { pose proof (sequence_in_int64 _ Hok). int64. }
  split; [by rewrite lookup_insert_eq|].
  split; [apply get_item_Some; [done|]; simpl; by rewrite lookup_insert_eq|].
  rewrite response_model_created, response_model_stored by done.
  destruct item; simpl in *; by subst.
Qed.

(** Claiming an id that is present succeeds and sets the flag, so that
    fetching the id next shows it claimed.  Claiming an id that is absent
    and fits a 64-bit integer is a 404 and changes nothing.  An id that does
    not fit is refused by the binding with [OverflowError]; the database is
    unchanged then too. *)
Lemma claim_item_sets_claimed_or_not_found db k :
  store_ok db →
  (∀ r, items db !! k = Some r →
     ∃ db' fetched,
       claim_item k db = (Return claimed_message, db') ∧
       items db' = <[k := set_claimed r]> (items db) ∧
       get_item k db' = (Return fetched, db') ∧
       fetched !! "claimed" = Some (VInt 1) ∧
       as_optional_bool (fetched !! "claimed") = Some (Some true)) ∧
  (items db !! k = None → in_int64 k →
     claim_item k db = (Raise not_found, db)) ∧
  (¬ in_int64 k → claim_item k db = (Raise OverflowError, db)).
Proof.
  intros Hok. repeat split.
  - intros r Hr.
    assert (in_int64 k) as Hin by (apply (rowid_in_int64 _ Hok); eauto).
    eexists _, (row_dict (k, set_claimed r)).
    split; [by apply claim_item_Some|]. split; [done|].
    split; [apply get_item_Some; [done|]; simpl; by rewrite lookup_insert_eq|].
    destruct (row_dict_lookup k (set_claimed r))
      as (_ & _ & _ & _ & _ & _ & ->). done.
  - intros Hr Hin. by apply claim_item_None.
  - apply claim_item_overflow.
Qed.

Lemma claim_item_sets_claimed_or_not_found_witness :
  (∀ r, items (create_item wallet (init_db None)).2 !! 1 = Some r →
     ∃ db' fetched,
       claim_item 1 (create_item wallet (init_db None)).2
         = (Return claimed_message, db') ∧
       items db'
         = <[1 := set_claimed r]> (items (create_item wallet (init_db None)).2) ∧
       get_item 1 db' = (Return fetched, db') ∧
       fetched !! "claimed" = Some (VInt 1) ∧
       as_optional_bool (fetched !! "claimed") = Some (Some true)) ∧
  (items (create_item wallet (init_db None)).2 !! 1 = None → in_int64 1 →
     claim_item 1 (create_item wallet (init_db None)).2
       = (Raise not_found, (create_item wallet (init_db None)).2)) ∧
  (¬ in_int64 1 →
     claim_item 1 (create_item wallet (init_db None)).2
       = (Raise OverflowError, (create_item wallet (init_db None)).2)).
Proof.
  apply (claim_item_sets_claimed_or_not_found
           (create_item wallet (init_db None)).2 1).
  apply (app_store_ok (POST_items (body_of wallet)) (init_db None)).
  exact store_ok_init_db.
Defined.

(** C3.  [claim_item] answers an id without a row with a 404, but an id
    that does not fit a 64-bit integer never reaches that check: 2^63 is not
    an id of the empty table, and claiming it raises the [OverflowError] of
    the binding instead of the 404. *)
Theorem claim_item_unknown_id_overflow :
  items (init_db None) !! (2 ^ 63) = None ∧
  claim_item (2 ^ 63) (init_db None) = (Raise OverflowError, init_db None) ∧
  (claim_item (2 ^ 63) (init_db None)).1 ≠ Raise not_found.
Proof. repeat split. done. Qed.

(** C4.  Deleting an id that is present succeeds and removes the row.
    Deleting the id again is a 404 that changes nothing.  From then on,
    whatever requests follow, the id is a 404 for [get_item] and no
    dictionary of the listing carries it. *)
Theorem delete_item_then_not_found db k r :
  store_ok db →
  items db !! k = Some r →
  ∃ db',
    delete_item k db = (Return deleted_message, db') ∧
    items db' = delete k (items db) ∧
    delete_item k db' = (Raise not_found, db') ∧
    ∀ reqs,
      get_item k (serve reqs db').2 = (Raise not_found, (serve reqs db').2) ∧
      ∀ l d, (get_items (serve reqs db').2).1 = Return l → d ∈ l →
             d !! "id" ≠ Some (VInt k).
Proof.
  intros Hok Hr.
  assert (in_int64 k) as Hin by (apply (rowid_in_int64 _ Hok); eauto).
  eexists. split; [by eapply delete_item_Some|]. split; [done|].
  split; [apply delete_item_None; [done|]; simpl; apply lookup_delete_eq|].
  intros reqs.
  match goal with |- context [serve reqs ?s] => set (db' := s) end.
  assert (items (serve reqs db').2 !! k = None) as Hgone.
  { apply serve_retired; simpl; [apply lookup_delete_eq|].
    apply (rowid_le_sequence _ Hok). eauto. }
  split; [by apply get_item_None|].
  intros l d. by apply get_items_not_listed.
Qed.

Lemma delete_item_then_not_found_witness :
  ∃ db',
    delete_item 1 (create_item wallet (init_db None)).2
      = (Return deleted_message, db') ∧
    items db' = delete 1 (items (create_item wallet (init_db None)).2) ∧
    delete_item 1 db' = (Raise not_found, db') ∧
    ∀ reqs,
      get_item 1 (serve reqs db').2 = (Raise not_found, (serve reqs db').2) ∧
      ∀ l d, (get_items (serve reqs db').2).1 = Return l → d ∈ l →
             d !! "id" ≠ Some (VInt 1).
Proof.
  apply (delete_item_then_not_found
           (create_item wallet (init_db None)).2 1 (row_of_item wallet)).
  - apply (app_store_ok (POST_items (body_of wallet)) (init_db None)).
    exact store_ok_init_db.
  - reflexivity.
Defined.


(** Two items, the newer one created last: it is listed first. *)
Example get_items_two_items :
  (λ d, d !! "date_found") <$>
    match (get_items (serve [POST_items (body_of wallet);
                             POST_items (body_of keys)] (init_db None)).2).1
    with Return l => l | Raise _ => [] end
  = [Some (VStr "2024-03-02"); Some (VStr "2024-01-10")].
Proof. reflexivity. Qed.

(** C6.  In a database that the application made, every flag is 0 or 1; a
    row that a request adds has the flag 0; and a row whose flag is 1 keeps
    it through any later requests for as long as the row exists. *)
Theorem claimed_only_false_to_true db :
  reachable db →
  (∀ k r, items db !! k = Some r → flag_ok r) ∧
  (∀ req k r,
     items db !! k = None → items (app req db).2 !! k = Some r →
     col_claimed r = INTEGER 0) ∧
  (∀ reqs k r r',
     items db !! k = Some r → col_claimed r = INTEGER 1 →
     items (serve reqs db).2 !! k = Some r' → col_claimed r' = INTEGER 1).
Proof.
  intros Hreach. split; [|split].
  - intros k r. by apply reachable_flag_ok.
  - intros req k r. apply transition_new_row with (o := created_id (req, (app req db).1)).
    apply app_transition.
  - intros reqs k r r' Hr Hcl Hr'.
    pose proof (serve_claimed_or_retired k reqs db
                  (reachable_store_ok _ Hreach)) as H.
    unfold claimed_or_retired in H. rewrite Hr, Hr' in H. by apply H.
Qed.

Lemma claimed_only_false_to_true_witness :
  (∀ k r,
     items (serve [POST_items (body_of keys); PUT_items_claim 1]
              (init_db None)).2 !! k = Some r → flag_ok r) ∧
  (∀ req k r,
     items (serve [POST_items (body_of keys); PUT_items_claim 1]
              (init_db None)).2 !! k = None →
     items (app req (serve [POST_items (body_of keys); PUT_items_claim 1]
                       (init_db None)).2).2 !! k = Some r →
     col_claimed r = INTEGER 0) ∧
  (∀ reqs k r r',
     items (serve [POST_items (body_of keys); PUT_items_claim 1]
              (init_db None)).2 !! k = Some r →
     col_claimed r = INTEGER 1 →
     items (serve reqs (serve [POST_items (body_of keys); PUT_items_claim 1]
                          (init_db None)).2).2 !! k = Some r' →
     col_claimed r' = INTEGER 1).
Proof.
  apply (claimed_only_false_to_true
           (serve [POST_items (body_of keys); PUT_items_claim 1]
              (init_db None)).2).
  exists [POST_items (body_of keys); PUT_items_claim 1]. reflexivity.
Defined.

(** C7.  Claiming an id that is present twice leaves the database as
    claiming it once does, and both calls succeed; claiming a row that is
    already claimed changes nothing. *)
Theorem claim_item_idempotent db k r :
  store_ok db →
  items db !! k = Some r →
  ∃ db',
    claim_item k db = (Return claimed_message, db') ∧
    claim_item k db' = (Return claimed_message, db') ∧
    (col_claimed r = INTEGER 1 → db' = db).
Proof.
  intros Hok Hr.
  assert (in_int64 k) as Hin by (apply (rowid_in_int64 _ Hok); eauto).
  eexists. split; [by apply claim_item_Some|]. split.
  - erewrite claim_item_Some; [|done|simpl; apply lookup_insert_eq].
    simpl. by rewrite insert_insert_eq.
  - intros Hcl. destruct db as [m n]; simpl in *. f_equal.
    apply insert_id. rewrite Hr. f_equal. destruct r; simpl in *. by subst.
Qed.

Lemma claim_item_idempotent_witness :
  ∃ db',
    claim_item 1 (create_item wallet (init_db None)).2
      = (Return claimed_message, db') ∧
    claim_item 1 db' = (Return claimed_message, db') ∧
    (col_claimed (row_of_item wallet) = INTEGER 1 →
     db' = (create_item wallet (init_db None)).2).
Proof.
  apply (claim_item_idempotent
           (create_item wallet (init_db None)).2 1 (row_of_item wallet)).
  - apply (app_store_ok (POST_items (body_of wallet)) (init_db None)).
    exact store_ok_init_db.
  - reflexivity.
Defined.

(** Fetching an id that is absent from the table is a 404 when the id fits
    a 64-bit integer, and the [OverflowError] of the binding when it does
    not; in both cases nothing changes. *)
Lemma get_item_unknown_id db k :
  items db !! k = None →
  (in_int64 k → get_item k db = (Raise not_found, db)) ∧
  (¬ in_int64 k → get_item k db = (Raise OverflowError, db)).
Proof.
  intros Hk. split.
  - intros Hin. by apply get_item_None.
  - apply get_item_overflow.
Qed.

Lemma get_item_unknown_id_witness :
  (in_int64 7 → get_item 7 (init_db None) = (Raise not_found, init_db None)) ∧
  (¬ in_int64 7 →
   get_item 7 (init_db None) = (Raise OverflowError, init_db None)).
Proof. apply (get_item_unknown_id (init_db None) 7). reflexivity. Defined.

(** C8.  [get_item] answers an id without a row with a 404, but an id that
    does not fit a 64-bit integer never reaches that check: 2^63 is not an
    id of the empty table, and fetching it raises the [OverflowError] of the
    binding instead of the 404. *)
Theorem get_item_unknown_id_overflow :
  items (init_db None) !! (2 ^ 63) = None ∧
  get_item (2 ^ 63) (init_db None) = (Raise OverflowError, init_db None) ∧
  (get_item (2 ^ 63) (init_db None)).1 ≠ Raise not_found.
Proof. repeat split. done. Qed.


(** With a description, the example of the specification is stored under
    id 1. *)
Example post_items_with_description_accepted :
  ∃ created db',
    app (POST_items wallet_with_description) (init_db None)
      = (Return (Single created), db') ∧
    created !! "id" = Some (VInt 1) ∧
    created !! "claimed" = Some (VBool false) ∧
    items db' !! 1 = Some (row_of_item wallet).
Proof. eexists _, _. repeat split; reflexivity. Qed.


(** C10.  The ids that the application assigns, in the order of the
    requests, increase strictly: a new id is above every id assigned
    before, whatever was deleted in between. *)
Theorem created_ids_strictly_increasing reqs :
  StronglySorted Z.lt (created_ids (serve reqs (init_db None)).1).
Proof. apply created_ids_serve. Qed.

Example created_ids_after_delete :
  created_ids (serve [POST_items (body_of wallet); POST_items (body_of keys);
                      DELETE_items 2; POST_items (body_of wallet)]
                 (init_db None)).1 = [1; 2; 3].
Proof. reflexivity. Qed.

End claims.

(** * Further properties of the code *)

(** ** The row factory *)

Section row_factory.

Implicit Types (cols : list string) (row : list SqlValue) (c : string).

Lemma dict_factory_fold_notin cols row n (d : gmap string value) c :
  c ∉ cols →
  foldl (λ d ic, match row !! ic.1 with
                 | Some v => <[ic.2 := convert v]> d
                 | None => d
                 end) d (enumerate_from n cols) !! c = d !! c.
Proof.
  revert n d. induction cols as [|x cols IH]; intros n d Hc; simpl; [done|].
  apply not_elem_of_cons in Hc as [Hne Hc]. rewrite IH by done.
  destruct (row !! n); [|done]. by rewrite lookup_insert_ne.
Qed.

Lemma dict_factory_fold_last cols row n (d : gmap string value) c i v :
  cols !! i = Some c →
  (∀ j, (i < j)%nat → cols !! j ≠ Some c) →
  row !! (n + i)%nat = Some v →
  foldl (λ d ic, match row !! ic.1 with
                 | Some v => <[ic.2 := convert v]> d
                 | None => d
                 end) d (enumerate_from n cols) !! c = Some (convert v).
Proof.
  revert n d i. induction cols as [|x cols IH]; intros n d i Hi Hlast Hv;
    [done|]. simpl. destruct i as [|i]; simpl in Hi.
  - injection Hi as ->. rewrite Nat.add_0_r in Hv. rewrite Hv.
    rewrite dict_factory_fold_notin; [by rewrite lookup_insert_eq|].
    intros (j & Hj)%list_elem_of_lookup_1.
    by apply (Hlast (S j)); [lia|].
  - apply (IH (S n) _ i); [done| |by rewrite Nat.add_succ_comm].
    intros j Hj. apply (Hlast (S j)). lia.
Qed.

(** X1.  [dict_factory] maps every column name to the value at the position
    of that column, converted to Python; where a name occurs more than
    once, the last column of that name wins; and the dictionary has no
    other key. *)
Theorem dict_factory_lookup cols row c :
  length row = length cols →
  (∀ i, cols !! i = Some c → (∀ j, (i < j)%nat → cols !! j ≠ Some c) →
        dict_factory cols row !! c = convert <$> row !! i) ∧
  (c ∉ cols → dict_factory cols row !! c = None).
Proof.
  intros Hlen. split.
  - intros i Hi Hlast.
    destruct (row !! i) as [v|] eqn:Hv.
    + simpl. unfold dict_factory. by eapply dict_factory_fold_last.
    + apply lookup_ge_None in Hv. apply lookup_lt_Some in Hi. lia.
  - intros Hc. unfold dict_factory. by rewrite dict_factory_fold_notin.
Qed.

Lemma dict_factory_lookup_witness :
  (∀ i, description_of_items !! i = Some "name"%string →
        (∀ j, (i < j)%nat → description_of_items !! j ≠ Some "name"%string) →
        dict_factory description_of_items (tuple (1, row_of_item wallet))
          !! "name" = convert <$> tuple (1, row_of_item wallet) !! i) ∧
  ("name"%string ∉ description_of_items →
   dict_factory description_of_items (tuple (1, row_of_item wallet))
     !! "name" = None).
Proof.
  apply (dict_factory_lookup description_of_items
           (tuple (1, row_of_item wallet)) "name"). reflexivity.
Defined.

End row_factory.

(** ** What a handler leaves alone *)

Section frames.

Implicit Types (db : Store) (k j : Z) (r : Row) (item : Item).

Lemma get_item_same_row db db' j :
  items db' !! j = items db !! j → (get_item j db').1 = (get_item j db).1.
Proof.
  intros Hj. unfold get_item, select_where_id.
  destruct (bind_int j) as [i|e] eqn:Hbind; [|done].
  apply bind_int_Return in Hbind as [-> _]. rewrite Hj.
  by destruct (items db !! j).
Qed.

Lemma listing_unfold db :
  listing db = row_dict <$> merge_sort date_found_desc (map_to_list (items db)).
Proof. unfold listing. by rewrite get_items_unfold. Qed.

Lemma listing_Permutation db :
  listing db ≡ₚ row_dict <$> map_to_list (items db).
Proof. rewrite listing_unfold. by rewrite merge_sort_Permutation. Qed.

Lemma row_dict_set_claimed k r :
  row_dict (k, set_claimed r) = <["claimed" := VInt 1]> (row_dict (k, r)).
Proof. destruct r. reflexivity. Qed.

(** X2.  A request that ends in an exception leaves the database as it
    was, and so does every [GET]. *)
Theorem app_error_changes_nothing req db :
  (∃ e, (app req db).1 = Raise e) ∨ req = GET_items ∨
  (∃ k, req = GET_items_id k) →
  (app req db).2 = db.
Proof.
  intros [[e He] | [-> | [k ->]]].
  - destruct req as [|body|k|k|k]; simpl in *; [done|..].
    + destruct (Item_validate body) as [item|e']; [|done].
      destruct (new_rowid db) as [k|] eqn:Hk.
      * by rewrite (create_item_Some _ _ _ Hk) in He.
      * by rewrite (create_item_None _ _ Hk).
    + destruct (decide (in_int64 k)) as [Hk|Hk].
      * destruct (items db !! k) as [r|] eqn:Hr.
        -- by rewrite (claim_item_Some _ _ _ Hk Hr) in He.
        -- by rewrite (claim_item_None _ _ Hk Hr).
      * by rewrite (claim_item_overflow _ _ Hk).
    + destruct (decide (in_int64 k)) as [Hk|Hk].
      * destruct (items db !! k) as [r|] eqn:Hr.
        -- by rewrite (delete_item_Some _ _ _ Hk Hr) in He.
        -- by rewrite (delete_item_None _ _ Hk Hr).
      * by rewrite (delete_item_overflow _ _ Hk).
    + destruct (decide (in_int64 k)) as [Hk|Hk].
      * destruct (items db !! k) as [r|] eqn:Hr.
        -- by rewrite (get_item_Some _ _ _ Hk Hr).
        -- by rewrite (get_item_None _ _ Hk Hr).
      * by rewrite (get_item_overflow _ _ Hk).
  - done.
  - simpl. destruct (decide (in_int64 k)) as [Hk|Hk].
    + destruct (items db !! k) as [r|] eqn:Hr.
      * by rewrite (get_item_Some _ _ _ Hk Hr).
      * by rewrite (get_item_None _ _ Hk Hr).
    + by rewrite (get_item_overflow _ _ Hk).
Qed.

Lemma app_error_changes_nothing_witness :
  (app (DELETE_items 7) (create_item wallet (init_db None)).2).2
  = (create_item wallet (init_db None)).2.
Proof.
  apply (app_error_changes_nothing (DELETE_items 7)). left.
  exists not_found. reflexivity.
Defined.

(** X3.  [claim_item] on an id that is present changes the [claimed] key of
    that item and nothing else: the counter and the other rows are as
    before, every other id is fetched as before, and the item itself is
    fetched with every other key as before. *)
Theorem claim_item_changes_only_claimed db k r :
  store_ok db →
  items db !! k = Some r →
  ∃ db' before after,
    claim_item k db = (Return claimed_message, db') ∧
    sqlite_sequence db' = sqlite_sequence db ∧
    (∀ j, j ≠ k → items db' !! j = items db !! j) ∧
    (∀ j, j ≠ k → (get_item j db').1 = (get_item j db).1) ∧
    get_item k db = (Return before, db) ∧
    get_item k db' = (Return after, db') ∧
    (∀ c : string, c ≠ "claimed"%string → after !! c = before !! c).
Proof.
  intros Hok Hr.
  assert (in_int64 k) as Hin by (apply (rowid_in_int64 _ Hok); eauto).
  eexists _, (row_dict (k, r)), (row_dict (k, set_claimed r)).
  split; [by apply claim_item_Some|]. split; [done|].
  assert (∀ j, j ≠ k →
            <[k := set_claimed r]> (items db) !! j = items db !! j) as Hframe.
  { intros j Hj. by rewrite lookup_insert_ne. }
  split; [done|].
  split; [intros j Hj; apply get_item_same_row; simpl; by apply Hframe|].
  split; [by apply get_item_Some|].
  split; [apply get_item_Some; [done|]; simpl; apply lookup_insert_eq|].
  intros c Hc. rewrite row_dict_set_claimed. by rewrite lookup_insert_ne.
Qed.

Lemma claim_item_changes_only_claimed_witness :
  ∃ db' before after,
    claim_item 1 (create_item wallet (init_db None)).2
      = (Return claimed_message, db') ∧
    sqlite_sequence db' = sqlite_sequence (create_item wallet (init_db None)).2 ∧
    (∀ j, j ≠ 1 →
       items db' !! j = items (create_item wallet (init_db None)).2 !! j) ∧
    (∀ j, j ≠ 1 →
       (get_item j db').1
       = (get_item j (create_item wallet (init_db None)).2).1) ∧
    get_item 1 (create_item wallet (init_db None)).2
      = (Return before, (create_item wallet (init_db None)).2) ∧
    get_item 1 db' = (Return after, db') ∧
    (∀ c : string, c ≠ "claimed"%string → after !! c = before !! c).
Proof.
  apply (claim_item_changes_only_claimed
           (create_item wallet (init_db None)).2 1 (row_of_item wallet)).
  - apply (app_store_ok (POST_items (body_of wallet)) (init_db None)).
    exact store_ok_init_db.
  - reflexivity.
Defined.

(** X4.  [delete_item] on an id that is present takes exactly that item out
    of the listing, and every other id is fetched as before. *)
Theorem delete_item_removes_one db k r :
  store_ok db →
  items db !! k = Some r →
  ∃ db',
    delete_item k db = (Return deleted_message, db') ∧
    listing db ≡ₚ row_dict (k, r) :: listing db' ∧
    (∀ j, j ≠ k → (get_item j db').1 = (get_item j db).1).
Proof.
  intros Hok Hr.
  assert (in_int64 k) as Hin by (apply (rowid_in_int64 _ Hok); eauto).
  eexists. split; [by eapply delete_item_Some|]. split.
  - rewrite !listing_Permutation. simpl.
    rewrite <- (map_to_list_delete (items db) k r Hr). done.
  - intros j Hj. apply get_item_same_row. simpl. by rewrite lookup_delete_ne.
Qed.

Lemma delete_item_removes_one_witness :
  ∃ db',
    delete_item 1 (create_item wallet (init_db None)).2
      = (Return deleted_message, db') ∧
    listing (create_item wallet (init_db None)).2
      ≡ₚ row_dict (1, row_of_item wallet) :: listing db' ∧
    (∀ j, j ≠ 1 →
       (get_item j db').1
       = (get_item j (create_item wallet (init_db None)).2).1).
Proof.
  apply (delete_item_removes_one
           (create_item wallet (init_db None)).2 1 (row_of_item wallet)).
  - apply (app_store_ok (POST_items (body_of wallet)) (init_db None)).
    exact store_ok_init_db.
  - reflexivity.
Defined.

(** X5.  A successful [create_item] adds exactly one item to the listing,
    under an id that the table did not hold, and every other id is fetched
    as before. *)
Theorem create_item_adds_one item db created db' :
  create_item item db = (Return created, db') →
  ∃ k,
    created !! "id" = Some (VInt k) ∧
    items db !! k = None ∧
    listing db' ≡ₚ row_dict (k, row_of_item item) :: listing db ∧
    (∀ j, j ≠ k → (get_item j db').1 = (get_item j db).1).
Proof.
  intros Hcreate.
  destruct (new_rowid db) as [k|] eqn:Hk.
  2: { by rewrite (create_item_None _ _ Hk) in Hcreate. }
  rewrite (create_item_Some _ _ _ Hk) in Hcreate.
  injection Hcreate as <- <-. exists k.
  pose proof (new_rowid_fresh _ _ Hk) as Hfresh.
  split; [by rewrite lookup_insert_eq|]. split; [done|]. split.
  - rewrite !listing_Permutation. simpl.
    by rewrite (map_to_list_insert (items db) k _ Hfresh).
  - intros j Hj. apply get_item_same_row. simpl. by rewrite lookup_insert_ne.
Qed.

Lemma create_item_adds_one_witness :
  ∃ k,
    (<["id" := VInt 1]> (Item_dict wallet)) !! "id" = Some (VInt k) ∧
    items (init_db None) !! k = None ∧
    listing (create_item wallet (init_db None)).2
      ≡ₚ row_dict (k, row_of_item wallet) :: listing (init_db None) ∧
    (∀ j, j ≠ k →
       (get_item j (create_item wallet (init_db None)).2).1
       = (get_item j (init_db None)).1).
Proof.
  apply (create_item_adds_one wallet (init_db None)). reflexivity.
Defined.

(** X6.  For an id that fits a 64-bit integer, [get_item] answers with a
    dictionary exactly when the listing holds that dictionary under that
    id. *)
Theorem get_item_iff_listed db k d :
  in_int64 k →
  get_item k db = (Return d, db) ↔
  d ∈ listing db ∧ d !! "id" = Some (VInt k).
Proof.
  intros Hin. unfold listing.
  destruct (get_items db) as [out db0] eqn:Hget.
  pose proof (get_items_unfold db) as Hunfold. rewrite Hget in Hunfold.
  injection Hunfold as -> ->. simpl.
  rewrite list_elem_of_fmap. split.
  - destruct (items db !! k) as [r|] eqn:Hr.
    + rewrite (get_item_Some _ _ _ Hin Hr). intros [= <-]. split.
      * exists (k, r). by rewrite elem_of_merge_sort_items.
      * by destruct (row_dict_lookup k r) as (-> & _).
    + by rewrite (get_item_None _ _ Hin Hr).
  - intros [([j r] & -> & Hj%elem_of_merge_sort_items) Hid]. simpl in Hj.
    destruct (row_dict_lookup j r) as (Hid' & _). rewrite Hid' in Hid.
    injection Hid as ->. by apply get_item_Some.
Qed.

Lemma get_item_iff_listed_witness :
  get_item 1 (create_item wallet (init_db None)).2
    = (Return (row_dict (1, row_of_item wallet)),
       (create_item wallet (init_db None)).2) ↔
  row_dict (1, row_of_item wallet) ∈ listing (create_item wallet (init_db None)).2
  ∧ row_dict (1, row_of_item wallet) !! "id" = Some (VInt 1).
Proof.
  apply (get_item_iff_listed (create_item wallet (init_db None)).2 1).
  unfold in_int64, INT64_MIN, INT64_MAX. lia.
Defined.

(** X7.  The listing has one dictionary for each row of the table, and no
    two of them carry the same id. *)
Theorem listing_ids_distinct db :
  length (listing db) = size (items db) ∧
  NoDup ((λ d : gmap string value, d !! "id") <$> listing db).
Proof.
  split.
  - rewrite listing_Permutation, length_fmap. apply length_map_to_list.
  - rewrite listing_Permutation, <- list_fmap_compose.
    assert ((λ d : gmap string value, d !! "id") ∘ row_dict
            <$> map_to_list (items db)
            = (λ k, Some (VInt k)) <$> (map_to_list (items db)).*1) as ->.
    { rewrite <- list_fmap_compose. apply list_fmap_ext.
      intros _ [k r] _. simpl. by destruct (row_dict_lookup k r) as (-> & _). }
    apply NoDup_fmap_2; [|apply NoDup_fst_map_to_list].
    intros k1 k2. by intros [= ->].
Qed.

End frames.

(** ** Ids and the capacity of the table *)

Section rowid_sequence.

Implicit Types (db : Store) (k : Z) (item : Item).

Lemma new_rowid_next db k :
  store_ok db → 0 ≤ sqlite_sequence db →
  new_rowid db = Some k → k = sqlite_sequence db + 1.
Proof.
  intros [_ _ Hle] Hpos. unfold new_rowid.
  pose proof (last_rowid_spec (items db)) as Hlast.
  destruct (last_rowid (items db)) as [j|].
  - destruct Hlast as [Hj _]. specialize (Hle j Hj).
    destruct (Z.leb_spec INT64_MAX j); [done|].
    destruct (Z.leb_spec INT64_MAX (sqlite_sequence db)); [done|].
    intros [= <-]. lia.
  - destruct (Z.leb_spec INT64_MAX (sqlite_sequence db)); [done|].
    intros [= <-]. lia.
Qed.

Lemma transition_next db o db' k :
  store_ok db → 0 ≤ sqlite_sequence db →
  transition db o db' → o = Some k → k = sqlite_sequence db + 1.
Proof.
  intros Hok Hpos Htr. inversion Htr as [|j item Hj| |]; subst; try done.
  intros [= <-]. by apply new_rowid_next.
Qed.

Lemma transition_None_sequence db db' :
  transition db None db' → sqlite_sequence db' = sqlite_sequence db.
Proof. intros Htr. by inversion Htr. Qed.

Lemma created_ids_consecutive reqs db :
  store_ok db → 0 ≤ sqlite_sequence db →
  created_ids (serve reqs db).1
  = seqZ (sqlite_sequence db + 1)
         (Z.of_nat (length (created_ids (serve reqs db).1))).
Proof.
  revert db. induction reqs as [|req reqs IH]; intros db Hok Hpos; [done|].
  pose proof (app_transition req db) as Htr.
  destruct (transition_sequence _ _ _ Htr) as [Hmono Hnew].
  rewrite created_ids_cons.
  specialize (IH (app req db).2 (app_store_ok _ _ Hok) ltac:(lia)).
  destruct (created_id (req, (app req db).1)) as [k|] eqn:Hk.
  - pose proof (transition_next _ _ _ k Hok Hpos Htr eq_refl) as ->.
    destruct (Hnew _ eq_refl) as [_ Heq]. rewrite Heq in IH.
    rewrite length_cons, Nat2Z.inj_succ, seqZ_cons by lia.
    rewrite Z.pred_succ. by f_equal.
  - by rewrite (transition_None_sequence _ _ Htr) in IH.
Qed.

(** X8.  On a database that [init_db] created, the ids that the requests
    are given are 1, 2, 3, ... in this order, whatever is deleted, claimed
    or refused in between. *)
Theorem created_ids_count_from_one reqs :
  created_ids (serve reqs (init_db None)).1
  = seqZ 1 (Z.of_nat (length (created_ids (serve reqs (init_db None)).1))).
Proof.
  apply (created_ids_consecutive reqs (init_db None)).
  - apply store_ok_init_db.
  - done.
Qed.



End rowid_sequence.

(** ** How the handlers compose *)

Section composition.

Implicit Types (db : Store) (k j : Z) (r : Row) (item : Item).

Lemma claim_item_store db k :
  (claim_item k db).2 =
    if decide (in_int64 k)
    then {| items := alter set_claimed k (items db);
            sqlite_sequence := sqlite_sequence db |}
    else db.
Proof.
  case_decide as Hk.
  - destruct (items db !! k) as [r|] eqn:Hr.
    + rewrite (claim_item_Some _ _ _ Hk Hr). simpl. f_equal.
      apply map_eq. intros i. rewrite lookup_alter, lookup_insert.
      case_decide; subst; by rewrite ?Hr.
    + rewrite (claim_item_None _ _ Hk Hr). simpl. destruct db as [m n].
      simpl in *. f_equal. apply map_eq. intros i. rewrite lookup_alter.
      case_decide; subst; by rewrite ?Hr.
  - by rewrite (claim_item_overflow _ _ Hk).
Qed.

Lemma delete_item_store db k :
  (delete_item k db).2 =
    if decide (in_int64 k)
    then {| items := delete k (items db);
            sqlite_sequence := sqlite_sequence db |}
    else db.
Proof.
  case_decide as Hk.
  - destruct (items db !! k) as [r|] eqn:Hr.
    + by rewrite (delete_item_Some _ _ _ Hk Hr).
    + rewrite (delete_item_None _ _ Hk Hr). simpl. destruct db as [m n].
      simpl in *. f_equal. symmetry. by apply delete_id.
  - by rewrite (delete_item_overflow _ _ Hk).
Qed.

Lemma claim_item_outcome db db' k :
  items db' !! k = None ↔ items db !! k = None →
  (claim_item k db').1 = (claim_item k db).1.
Proof.
  intros Hsame. destruct (decide (in_int64 k)) as [Hk|Hk].
  - destruct (items db !! k) as [r|] eqn:Hr.
    + destruct (items db' !! k) as [r'|] eqn:Hr'.
      * by rewrite (claim_item_Some _ _ _ Hk Hr), (claim_item_Some _ _ _ Hk Hr').
      * by destruct Hsame as [Hsame _]; specialize (Hsame eq_refl).
    + destruct Hsame as [_ Hsame]; specialize (Hsame eq_refl).
      by rewrite (claim_item_None _ _ Hk Hr), (claim_item_None _ _ Hk Hsame).
  - by rewrite !(claim_item_overflow _ _ Hk).
Qed.

Lemma delete_item_outcome db db' k :
  items db' !! k = None ↔ items db !! k = None →
  (delete_item k db').1 = (delete_item k db).1.
Proof.
  intros Hsame. destruct (decide (in_int64 k)) as [Hk|Hk].
  - destruct (items db !! k) as [r|] eqn:Hr.
    + destruct (items db' !! k) as [r'|] eqn:Hr'.
      * by rewrite (delete_item_Some _ _ _ Hk Hr),
          (delete_item_Some _ _ _ Hk Hr').
      * by destruct Hsame as [Hsame _]; specialize (Hsame eq_refl).
    + destruct Hsame as [_ Hsame]; specialize (Hsame eq_refl).
      by rewrite (delete_item_None _ _ Hk Hr), (delete_item_None _ _ Hk Hsame).
  - by rewrite !(delete_item_overflow _ _ Hk).
Qed.

(** X10.  A claim and a delete of two different ids do not interfere: in
    either order each has the outcome it has on its own, and the database
    at the end is the same. *)
Theorem claim_item_delete_item_commute db j k :
  j ≠ k →
  (claim_item j (delete_item k db).2).1 = (claim_item j db).1 ∧
  (delete_item k (claim_item j db).2).1 = (delete_item k db).1 ∧
  (claim_item j (delete_item k db).2).2 = (delete_item k (claim_item j db).2).2.
Proof.
  intros Hjk. split; [|split].
  - apply claim_item_outcome. rewrite delete_item_store.
    case_decide; [|done]. simpl. by rewrite lookup_delete_ne.
  - apply delete_item_outcome. rewrite claim_item_store.
    case_decide; [|done]. simpl. by rewrite lookup_alter_ne.
  - rewrite !claim_item_store, !delete_item_store.
    repeat case_decide; simpl; try done.
    by rewrite alter_delete_ne.
Qed.

Lemma claim_item_delete_item_commute_witness :
  (claim_item 1 (delete_item 2 (create_item wallet (init_db None)).2).2).1
  = (claim_item 1 (create_item wallet (init_db None)).2).1 ∧
  (delete_item 2 (claim_item 1 (create_item wallet (init_db None)).2).2).1
  = (delete_item 2 (create_item wallet (init_db None)).2).1 ∧
  (claim_item 1 (delete_item 2 (create_item wallet (init_db None)).2).2).2
  = (delete_item 2 (claim_item 1 (create_item wallet (init_db None)).2).2).2.
Proof.
  apply (claim_item_delete_item_commute
           (create_item wallet (init_db None)).2 1 2). lia.
Defined.

Lemma response_model_claimed item k :
  date_valid (date_found item) = true →
  response_model (row_dict (k, set_claimed (row_of_item item)))
  = Some {| id := k; fields := claimed_item item |}.
Proof.
  intros Hv. unfold response_model.
  destruct (row_dict_lookup k (set_claimed (row_of_item item)))
    as (-> & -> & -> & -> & -> & -> & ->).
  cbn -[fromisoformat isoformat]. by rewrite fromisoformat_isoformat.
Qed.

(** X11.  Create, claim, fetch: an item that was created and then claimed
    under the id of the answer is fetched with the fields submitted and
    [claimed] true. *)
Theorem create_claim_get item db created db1 :
  store_ok db →
  date_valid (date_found item) = true →
  create_item item db = (Return created, db1) →
  ∃ k db2 fetched,
    created !! "id" = Some (VInt k) ∧
    claim_item k db1 = (Return claimed_message, db2) ∧
    get_item k db2 = (Return fetched, db2) ∧
    response_model fetched = Some {| id := k; fields := claimed_item item |}.
Proof.
  intros Hok Hv Hcreate.
  destruct (new_rowid db) as [k|] eqn:Hk.
  2: { by rewrite (create_item_None _ _ Hk) in Hcreate. }
  rewrite (create_item_Some _ _ _ Hk) in Hcreate.
  injection Hcreate as <- <-.
  pose proof (new_rowid_Some _ _ Hk) as (Hlt & Hmax & _).
  assert (in_int64 k) as Hin.
  { pose proof (sequence_in_int64 _ Hok). int64. }
  eexists k, _, (row_dict (k, set_claimed (row_of_item item))).
  split; [by rewrite lookup_insert_eq|].
  split; [apply claim_item_Some; [done|]; simpl; apply lookup_insert_eq|].
  split; [apply get_item_Some; [done|]; simpl; apply lookup_insert_eq|].
  by apply response_model_claimed.
Qed.

Lemma create_claim_get_witness :
  ∃ k db2 fetched,
    (<["id" := VInt 1]> (Item_dict wallet)) !! "id" = Some (VInt k) ∧
    claim_item k (create_item wallet (init_db None)).2
      = (Return claimed_message, db2) ∧
    get_item k db2 = (Return fetched, db2) ∧
    response_model fetched = Some {| id := k; fields := claimed_item wallet |}.
Proof.
  apply (create_claim_get wallet (init_db None)).
  - exact store_ok_init_db.
  - reflexivity.
  - reflexivity.
Defined.

End composition.

(** ** What the application stores and shows *)

Section stored_rows.

Implicit Types (db : Store) (k : Z) (r : Row) (item : Item).

Lemma Item_validate_Return body item :
  Item_validate body = Return item →
  body_date_found body = Some (date_found item).
Proof.
  unfold Item_validate.
  destruct (body_name body), (body_description body), (body_location body),
    (body_date_found body), (body_contact_info body); try done.
  by intros [= <-].
Qed.

Lemma set_claimed_idemp r : set_claimed (set_claimed r) = set_claimed r.
Proof. done. Qed.

Lemma row_written_set_claimed r : row_written r → row_written (set_claimed r).
Proof.
  intros (item & Hv & [-> | ->]); exists item; split; try done; by right.
Qed.

Lemma reply_with_2 {A} (f : A → reply) (out : result A * Store) :
  (reply_with f out).2 = out.2.
Proof. by destruct out as [[a|e] db]. Qed.

Lemma get_item_store db k : (get_item k db).2 = db.
Proof.
  unfold get_item. destruct (select_where_id k db) as [rows|e]; [|done].
  by destruct (head rows).
Qed.

(** With dates of the calendar in the requests, every row is one that the
    application wrote. *)
Lemma app_rows_written req db :
  valid_request req →
  (∀ k r, items db !! k = Some r → row_written r) →
  ∀ k r, items (app req db).2 !! k = Some r → row_written r.
Proof.
  intros Hreq Hrows. destruct req as [|body|j|j|j]; unfold app;
    rewrite ?reply_with_2.
  - done.
  - destruct (Item_validate body) as [item|e] eqn:Hitem; [|done].
    rewrite reply_with_2.
    apply Item_validate_Return, Hreq in Hitem.
    destruct (new_rowid db) as [j|] eqn:Hj.
    + rewrite (create_item_Some _ _ _ Hj). simpl. intros k r.
      rewrite lookup_insert. case_decide; [|by eauto].
      intros [= <-]. exists item. auto.
    + by rewrite (create_item_None _ _ Hj).
  - rewrite claim_item_store. case_decide; [|done]. simpl. intros k r.
    rewrite lookup_alter. case_decide; [|by eauto]. subst k.
    destruct (items db !! j) as [r0|] eqn:Hr0; [|done].
    intros [= <-]. by eapply row_written_set_claimed, Hrows.
  - rewrite delete_item_store. case_decide; [|done]. simpl. intros k r.
    rewrite lookup_delete. case_decide; [done|by eauto].
  - by rewrite get_item_store.
Qed.

Lemma serve_rows_written reqs db :
  Forall valid_request reqs →
  (∀ k r, items db !! k = Some r → row_written r) →
  ∀ k r, items (serve reqs db).2 !! k = Some r → row_written r.
Proof.
  intros Hreqs. revert db.
  induction Hreqs as [|req reqs Hreq _ IH]; intros db Hrows; simpl; [done|].
  by apply IH, app_rows_written.
Qed.

Lemma row_written_response k r :
  row_written r →
  ∃ item,
    response_model (row_dict (k, r)) = Some {| id := k; fields := item |} ∧
    date_valid (date_found item) = true ∧
    col_date_found r = TEXT (isoformat (date_found item)) ∧
    (claimed item = Some false ∨ claimed item = Some true).
Proof.
  intros (item & Hv & [-> | ->]).
  - exists (unclaimed item). rewrite response_model_stored by done. auto.
  - exists (claimed_item item). rewrite response_model_claimed by done. auto.
Qed.

(** X12.  When the dates of the requests are dates of the calendar, every
    dictionary that the listing of the database holds passes the response
    model, as an item with a date of the calendar that is unclaimed or
    claimed. *)
Theorem listing_passes_response_model reqs d :
  Forall valid_request reqs →
  d ∈ listing (serve reqs (init_db None)).2 →
  ∃ k item,
    response_model d = Some {| id := k; fields := item |} ∧
    date_valid (date_found item) = true ∧
    (claimed item = Some false ∨ claimed item = Some true).
Proof.
  intros Hreqs. rewrite listing_unfold, list_elem_of_fmap.
  intros ([k r] & -> & Hk%elem_of_merge_sort_items). simpl in Hk.
  assert (row_written r) as Hr.
  { eapply (serve_rows_written reqs (init_db None)); [done| |done].
    intros j r0. simpl. by rewrite lookup_empty. }
  destruct (row_written_response k r Hr) as (item & ? & ? & _ & ?). eauto.
Qed.

Lemma listing_passes_response_model_witness :
  ∃ k item,
    response_model (row_dict (1, row_of_item wallet))
      = Some {| id := k; fields := item |} ∧
    date_valid (date_found item) = true ∧
    (claimed item = Some false ∨ claimed item = Some true).
Proof.
  apply (listing_passes_response_model [POST_items (body_of wallet)]).
  - repeat constructor. simpl. intros d [= <-]. reflexivity.
  - rewrite listing_unfold. simpl. apply list_elem_of_In. left. reflexivity.
Defined.

Lemma rows_dates_descending (rows : list (Z * Row)) :
  Forall (λ x, row_written x.2) rows →
  StronglySorted date_found_desc rows →
  ∃ dates,
    shown_date <$> (row_dict <$> rows) = Some <$> dates ∧
    StronglySorted not_older dates ∧
    Forall2 (λ x a, col_date_found x.2 = TEXT (isoformat a) ∧
                    date_valid a = true) rows dates.
Proof.
  intros Hrows Hsorted. induction Hsorted as [|[k r] rows _ IH Hall].
  { exists []. repeat split; constructor. }
  apply Forall_cons in Hrows as [Hr Hrows].
  destruct (IH Hrows) as (dates & Hdates & Hsorted & Hrel).
  destruct (row_written_response k r Hr) as (item & Hresp & Hv & Htext & _).
  exists (date_found item :: dates). split; [|split].
  - rewrite !fmap_cons. f_equal; [|done]. unfold shown_date.
    by rewrite Hresp.
  - constructor; [done|]. clear Hdates Hsorted IH Hrows.
    induction Hrel as [|[j r'] b rows dates [Hb Hvb] _ IHrel]; [constructor|].
    apply Forall_cons in Hall as [Hjr Hall]. constructor; [|by apply IHrel].
    unfold date_found_desc, sql_leb in Hjr. simpl in Hjr, Hb.
    rewrite Hb, Htext in Hjr. cbn [sql_compare] in Hjr.
    rewrite compare_isoformat in Hjr by done.
    unfold not_older. rewrite date_compare_antisym.
    by destruct (date_compare b (date_found item)).
  - constructor; [done|done].
Qed.

(** X13.  When the dates of the requests are dates of the calendar, the
    dates that the listing shows through the response model are in
    descending order: no item is listed before an item found later. *)
Theorem listing_dates_descending reqs :
  Forall valid_request reqs →
  ∃ dates,
    shown_date <$> listing (serve reqs (init_db None)).2 = Some <$> dates ∧
    StronglySorted not_older dates.
Proof.
  intros Hreqs. rewrite listing_unfold.
  destruct (rows_dates_descending
              (merge_sort date_found_desc
                 (map_to_list (items (serve reqs (init_db None)).2))))
    as (dates & Hdates & Hsorted & _).
  - apply Forall_forall. intros [k r] Hk%elem_of_merge_sort_items.
    simpl in *. eapply (serve_rows_written reqs (init_db None)); [done| |done].
    intros j r0. simpl. by rewrite lookup_empty.
  - apply StronglySorted_merge_sort; apply _.
  - eauto.
Qed.

Lemma listing_dates_descending_witness :
  ∃ dates,
    shown_date <$> listing (serve [POST_items (body_of wallet);
                                   POST_items (body_of keys)]
                              (init_db None)).2 = Some <$> dates ∧
    StronglySorted not_older dates.
Proof.
  apply (listing_dates_descending
           [POST_items (body_of wallet); POST_items (body_of keys)]).
  repeat constructor; simpl; intros d [= <-]; reflexivity.
Defined.

(** X14.  The text that [create_item] stores for a date reads back as that
    date, differs for different dates, and compares under [ORDER BY] as the
    dates compare. *)
Theorem date_found_text_faithful a b :
  date_valid a = true →
  date_valid b = true →
  fromisoformat (isoformat a) = Some a ∧
  (isoformat a = isoformat b → a = b) ∧
  sql_compare (TEXT (isoformat a)) (TEXT (isoformat b)) = date_compare a b.
Proof.
  intros Ha Hb. split; [by apply fromisoformat_isoformat|]. split.
  - intros Heq. apply (f_equal fromisoformat) in Heq.
    rewrite !fromisoformat_isoformat in Heq by done. by injection Heq.
  - simpl. by apply compare_isoformat.
Qed.

Lemma date_found_text_faithful_witness :
  fromisoformat (isoformat (Date 2024 1 10)) = Some (Date 2024 1 10) ∧
  (isoformat (Date 2024 1 10) = isoformat (Date 2024 3 2) →
   Date 2024 1 10 = Date 2024 3 2) ∧
  sql_compare (TEXT (isoformat (Date 2024 1 10)))
              (TEXT (isoformat (Date 2024 3 2)))
  = date_compare (Date 2024 1 10) (Date 2024 3 2).
Proof.
  apply (date_found_text_faithful (Date 2024 1 10) (Date 2024 3 2));
    reflexivity.
Defined.

End stored_rows.

(** ** The interactive menu *)

Section menu.

Variable int : string → option Z.
Variable parse_date : string → option date.

Implicit Types (stdin : list string) (db : Store).

Lemma database_say out s : database (say out s) = database s.
Proof. done. Qed.

Lemma outcome_say out s : outcome (say out s) = outcome s.
Proof. done. Qed.

(** A session is a run of the application on requests other than the
    claim; it returns only after reading the choice 5. *)
Lemma show_menu_serve n stdin db :
  (length stdin ≤ n)%nat →
  ∃ reqs,
    Forall menu_request reqs ∧
    database (show_menu int parse_date stdin db) = (serve reqs db).2 ∧
    (outcome (show_menu int parse_date stdin db) = None →
     "5"%string ∈ stdin) ∧
    ((∀ s d, parse_date s = Some d → date_valid d = true) →
     Forall valid_request reqs).
Proof.
  revert stdin db. induction n as [|n IH]; intros [|choice stdin] db Hlen;
    simpl in Hlen; try lia.
  1, 2: by exists []; repeat split; try constructor.
  assert (∀ req stdin' db',
            menu_request req →
            ((∀ s d, parse_date s = Some d → date_valid d = true) →
             valid_request req) →
            (length stdin' ≤ n)%nat →
            (∀ x, x ∈ stdin' → x ∈ choice :: stdin) →
            db' = (app req db).2 →
            ∃ reqs,
              Forall menu_request reqs ∧
              database (show_menu int parse_date stdin' db') = (serve reqs db).2 ∧
              (outcome (show_menu int parse_date stdin' db') = None →
               "5"%string ∈ choice :: stdin) ∧
              ((∀ s d, parse_date s = Some d → date_valid d = true) →
               Forall valid_request reqs)) as Hstep.
  { intros req stdin' db' Hmenu Hvalid Hlen' Hsub ->.
    destruct (IH stdin' (app req db).2 Hlen') as (reqs & H1 & H2 & H3 & H4).
    exists (req :: reqs). split; [by constructor|]. split; [done|].
    split; [by auto|]. intros Hp. constructor; auto. }
  assert (∀ req,
            menu_request req →
            ((∀ s d, parse_date s = Some d → date_valid d = true) →
             valid_request req) →
            ∃ reqs,
              Forall menu_request reqs ∧
              (app req db).2 = (serve reqs db).2 ∧
              ((∀ s d, parse_date s = Some d → date_valid d = true) →
               Forall valid_request reqs)) as Hstop.
  { intros req Hmenu Hvalid. exists [req]. split; [by repeat constructor|].
    split; [done|]. intros Hp. repeat constructor. auto. }
  assert (∃ reqs,
            Forall menu_request reqs ∧ db = (serve reqs db).2 ∧
            ((∀ s d, parse_date s = Some d → date_valid d = true) →
             Forall valid_request reqs)) as Hnone.
  { exists []. repeat split; constructor. }
  cbn [show_menu]. rewrite database_say, outcome_say.
  destruct (String.eqb_spec choice "1") as [->|_].
  { rewrite (surjective_pairing (get_items db)), get_items_unfold.
    cbn [fst snd]. rewrite database_say, outcome_say.
    apply (Hstep GET_items); try done; [lia|].
    intros x Hx. rewrite elem_of_cons. auto. }
  destruct (String.eqb_spec choice "2") as [->|_].
  { destruct stdin as [|a [|b [|c [|df [|e stdin]]]]];
      try (destruct Hnone as (reqs & ? & ? & ?); exists reqs; by repeat split).
    rewrite database_say, outcome_say.
    destruct (parse_date df) as [d|] eqn:Hd;
      [|destruct Hnone as (reqs & ? & ? & ?); exists reqs; by repeat split].
    cbn [Item_validate body_name body_description body_location
           body_date_found body_contact_info body_claimed default].
    set (item := {| name := a; description := b; location := c;
                    date_found := d; contact_info := e;
                    claimed := Some false |}).
    set (body := {| body_name := Some a; body_description := Some b;
                    body_location := Some c; body_date_found := Some d;
                    body_contact_info := Some e; body_claimed := None |}).
    assert ((app (POST_items body) db).2 = (create_item item db).2) as Happ.
    { unfold app. cbn. by rewrite reply_with_2. }
    assert ((∀ s d, parse_date s = Some d → date_valid d = true) →
            valid_request (POST_items body)) as Hvalid.
    { intros Hp d' [= <-]. by eapply Hp. }
    destruct (create_item item db).1 eqn:Hout.
    - apply (Hstep (POST_items body)); try done.
      + simpl in Hlen. lia.
      + intros x Hx. rewrite !elem_of_cons. auto 10.
    - destruct (Hstop (POST_items body) I Hvalid) as (reqs & ? & ? & ?).
      exists reqs. cbn [database outcome]. rewrite <- Happ. by repeat split. }
  destruct (String.eqb_spec choice "3") as [->|_].
  { rewrite database_say, outcome_say.
    destruct stdin as [|line stdin];
      [destruct Hnone as (reqs & ? & ? & ?); exists reqs; by repeat split|].
    destruct (int line) as [k|];
      [|destruct Hnone as (reqs & ? & ? & ?); exists reqs; by repeat split].
    assert ((app (DELETE_items k) db).2 = (delete_item k db).2) as Happ.
    { unfold app. by rewrite reply_with_2. }
    destruct (delete_item k db).1 eqn:Hout.
    - apply (Hstep (DELETE_items k)); try done.
      + simpl in Hlen. lia.
      + intros x Hx. rewrite !elem_of_cons. auto 10.
    - destruct (Hstop (DELETE_items k) I (λ _, I)) as (reqs & ? & ? & ?).
      exists reqs. cbn [database outcome]. rewrite <- Happ. by repeat split. }
  destruct (String.eqb_spec choice "4") as [->|_].
  { rewrite database_say, outcome_say.
    destruct stdin as [|line stdin];
      [destruct Hnone as (reqs & ? & ? & ?); exists reqs; by repeat split|].
    destruct (int line) as [k|];
      [|destruct Hnone as (reqs & ? & ? & ?); exists reqs; by repeat split].
    assert ((app (GET_items_id k) db).2 = (get_item k db).2) as Happ.
    { unfold app. by rewrite reply_with_2. }
    destruct (get_item k db).1 eqn:Hout.
    - rewrite database_say, outcome_say.
      apply (Hstep (GET_items_id k)); try done.
      + simpl in Hlen. lia.
      + intros x Hx. rewrite !elem_of_cons. auto 10.
    - destruct (Hstop (GET_items_id k) I (λ _, I)) as (reqs & ? & ? & ?).
      exists reqs. cbn [database outcome]. rewrite <- Happ. by repeat split. }
  destruct (String.eqb_spec choice "5") as [->|_].
  { destruct Hnone as (reqs & ? & ? & ?). exists reqs.
    repeat split; try done. intros _. apply elem_of_cons. auto. }
  rewrite database_say, outcome_say.
  destruct (IH stdin db ltac:(lia)) as (reqs & H1 & H2 & H3 & H4).
  exists reqs. repeat split; try done. intros Hnone'.
  apply elem_of_cons. auto.
Qed.

(** Requests other than the claim leave every row as it was, or remove it;
    the rows they add are unclaimed. *)
Lemma app_menu_request_rows req db k r :
  menu_request req →
  items (app req db).2 !! k = Some r →
  items db !! k = Some r ∨ col_claimed r = INTEGER 0.
Proof.
  intros Hmenu. destruct req as [|body|j|j|j]; try done; unfold app.
  - rewrite reply_with_2. simpl. auto.
  - destruct (Item_validate body) as [item|e]; [|by auto].
    rewrite reply_with_2. destruct (new_rowid db) as [i|] eqn:Hi.
    + rewrite (create_item_Some _ _ _ Hi). simpl. rewrite lookup_insert.
      case_decide; [|by auto]. intros [= <-]. by right.
    + rewrite (create_item_None _ _ Hi). auto.
  - rewrite reply_with_2, delete_item_store.
    case_decide; [|by auto]. simpl. rewrite lookup_delete.
    case_decide; [done|by auto].
  - rewrite reply_with_2, get_item_store. auto.
Qed.

Lemma serve_menu_request_rows reqs db k r :
  Forall menu_request reqs →
  items (serve reqs db).2 !! k = Some r →
  items db !! k = Some r ∨ col_claimed r = INTEGER 0.
Proof.
  intros Hreqs. revert db.
  induction Hreqs as [|req reqs Hreq _ IH]; intros db; simpl; [by auto|].
  intros [Hr | Hr]%IH; [|by auto]. by eapply app_menu_request_rows.
Qed.

(** X15.  A session of the menu does to the database what the application
    does on some sequence of requests that has no claim among them; so a
    well-formed database stays well-formed. *)
Theorem show_menu_refines_app stdin db :
  (∃ reqs,
     Forall menu_request reqs ∧
     database (show_menu int parse_date stdin db) = (serve reqs db).2) ∧
  (store_ok db → store_ok (database (show_menu int parse_date stdin db))).
Proof.
  destruct (show_menu_serve (length stdin) stdin db (le_n _))
    as (reqs & Hmenu & Hdb & _).
  split; [by eauto|]. rewrite Hdb. apply serve_store_ok.
Qed.

(** X16.  The menu never claims: after a session, every row of the table is
    a row that was there before, unchanged, or is unclaimed. *)
Theorem show_menu_never_claims stdin db k r :
  items (database (show_menu int parse_date stdin db)) !! k = Some r →
  items db !! k = Some r ∨ col_claimed r = INTEGER 0.
Proof.
  destruct (show_menu_serve (length stdin) stdin db (le_n _))
    as (reqs & Hmenu & -> & _).
  by apply serve_menu_request_rows.
Qed.

(** X17.  The menu returns only on the choice 5: on input that has no line
    ["5"], the session ends with an exception. *)
Theorem show_menu_returns_on_5 stdin db :
  "5"%string ∉ stdin →
  ∃ e, outcome (show_menu int parse_date stdin db) = Some e.
Proof.
  intros Hno.
  destruct (show_menu_serve (length stdin) stdin db (le_n _))
    as (_ & _ & _ & Hret & _).
  destruct (outcome (show_menu int parse_date stdin db)) as [e|]; [by eauto|].
  by destruct Hno; apply Hret.
Qed.

(** X18.  Deleting or finding, from the menu, an id that the table does
    not hold ends the menu with the uncaught 404: the database is as it
    was, and the lines that follow are never read. *)
Theorem show_menu_unknown_id choice line k stdin db :
  choice = "3"%string ∨ choice = "4"%string →
  int line = Some k →
  in_int64 k →
  items db !! k = None →
  outcome (show_menu int parse_date (choice :: line :: stdin) db)
    = Some (Uncaught not_found) ∧
  database (show_menu int parse_date (choice :: line :: stdin) db) = db ∧
  show_menu int parse_date (choice :: line :: stdin) db
    = show_menu int parse_date [choice; line] db.
Proof.
  intros [-> | ->] Hline Hin Hk; cbn [show_menu String.eqb Ascii.eqb Bool.eqb];
    cbn [String.eqb Ascii.eqb Bool.eqb]; rewrite Hline.
  - by rewrite (delete_item_None _ _ Hin Hk).
  - by rewrite (get_item_None _ _ Hin Hk).
Qed.

End menu.

Lemma show_menu_never_claims_witness :
  items (init_db None) !! 1 = Some (row_of_item wallet) ∨
  col_claimed (row_of_item wallet) = INTEGER 0.
Proof.
  apply (show_menu_never_claims decimal fromisoformat
           ["2"; "Wallet"; ""; "Library"; "2024-01-10"; "x@y.com"; "5"]%string
           (init_db None) 1 (row_of_item wallet)).
  reflexivity.
Defined.

Lemma show_menu_returns_on_5_witness :
  ∃ e, outcome (show_menu decimal fromisoformat ["1"; "9"]%string
                  (init_db None)) = Some e.
Proof.
  apply (show_menu_returns_on_5 decimal fromisoformat).
  apply not_elem_of_cons. split; [done|].
  apply not_elem_of_cons. split; [done|]. apply not_elem_of_nil.
Defined.

Lemma show_menu_unknown_id_witness :
  outcome (show_menu decimal fromisoformat
             ["3"; "7"; "1"; "5"]%string (init_db None))
    = Some (Uncaught not_found) ∧
  database (show_menu decimal fromisoformat
              ["3"; "7"; "1"; "5"]%string (init_db None)) = init_db None ∧
  show_menu decimal fromisoformat ["3"; "7"; "1"; "5"]%string (init_db None)
    = show_menu decimal fromisoformat ["3"; "7"]%string (init_db None).
Proof.
  apply (show_menu_unknown_id decimal fromisoformat "3" "7" 7).
  - left. reflexivity.
  - reflexivity.
  - unfold in_int64, INT64_MIN, INT64_MAX. lia.
  - reflexivity.
Defined.
